(** * WeatherData: the area resolver and the aggregator

    A shallow embedding of [src/transform_in_spark.py] (the point-to-region
    lookup over a GeoJSON catalog) and of [src/aggregate.py] (the group,
    aggregate, join and window queries over the measurement table), with the
    properties of the specification stated and proved over them.

    Floating point numbers are idealised as rationals ([Q]); the engine's
    square root and the geometry library's containment test are taken as
    parameters of the development.  The rounding of double arithmetic is
    not modelled, so nothing is stated here that holds of exact sums only,
    such as a mean staying within its values or the order of a summation
    not mattering. *)

From Stdlib Require Import List String ZArith QArith Bool Lia Arith.
From Stdlib Require Import Sorting.Sorted Permutation Wellfounded.
Import ListNotations.

Set Warnings "-register-all".

Local Open Scope string_scope.
Local Open Scope Z_scope.

(** ** Python results: a value or a raised exception *)

Inductive exn := IndexError | TypeError | ValueError | RecursionError.

Inductive result (A : Type) :=
| Ok (a : A)
| Raise (e : exn).
Arguments Ok {A} a.
Arguments Raise {A} e.

Definition bind {A B} (m : result A) (k : A -> result B) : result B :=
  match m with
  | Ok a => k a
  | Raise e => Raise e
  end.

Notation "x <- m ;; k" := (bind m (fun x => k))
  (at level 61, m at next level, right associativity).

(** A [for] loop whose body may [return]: the body yields [Some r] to return
    [r] from the enclosing function and [None] to go on with the next
    element; [after] is the code that follows the loop. *)
Definition for_each {A R} (body : A -> result (option R)) (after : result R)
  : list A -> result R :=
  fix go (xs : list A) : result R :=
    match xs with
    | [] => after
    | x :: rest =>
        match body x with
        | Raise e => Raise e
        | Ok (Some r) => Ok r
        | Ok None => go rest
        end
    end.

(** ** The constants of the module [cols] *)

(** Modelled from the spec: the module [cols] imported by both source files
    is not part of the sources.  It holds the column names; the provenance
    tag is the one of the spec's example, the others are named after the
    attribute the source reads. *)
Module cols.
Definition automated : string := "automated".
Definition year : string := "year".
Definition area : string := "area".
Definition mean : string := "mean".
Definition stddev : string := "stddev".
Definition stations : string := "stations".
Definition running : string := "running".
Definition diff : string := "diff".
Definition temperature : string := "temperature".
Definition pivot_temp : string := "pivot_temp".
Definition sdo_id : string := "sdo_id".
End cols.

(** ** JSON values, as [json.load] hands them to Python *)

Inductive json :=
| JNull
| JBool (b : bool)
| JNum (q : Q)
| JStr (s : string)
| JArr (l : list json)
| JObj (l : list (string * json)).

(** [isinstance(v, list)] *)
Definition isinstance_list (v : json) : bool :=
  match v with
  | JArr _ => true
  | _ => false
  end.

(** [v[0]] for a [v] that is a list: an empty list raises [IndexError]. *)
Definition getitem0 (v : json) : result json :=
  match v with
  | JArr (x :: _) => Ok x
  | JArr [] => Raise IndexError
  | _ => Raise TypeError
  end.

(** The elements a [for] loop over a list visits. *)
Definition elements (v : json) : list json :=
  match v with
  | JArr l => l
  | _ => []
  end.

(** Nesting depth of a value: a scalar has depth 0, a list one more than its
    deepest element. *)
Fixpoint depth (v : json) : nat :=
  match v with
  | JArr l => S (fold_right (fun x d => Nat.max (depth x) d) O l)
  | _ => O
  end.

(** A feature of the catalog: [feature['geometry']['coordinates']] and the
    three names of [feature['properties']], each a string or [null].  The
    coordinates stay untyped, the source inspects their nesting itself. *)
Record Feature := mkFeature {
    coordinates : json;
    NAME_0 : option string;
    NAME_1 : option string;
    NAME_3 : option string
}.

(** [d[k]] of a Python [dict] with string keys, [None] when [k] is no key. *)
Fixpoint dict_get (d : list (string * string)) (k : string) : option string :=
  match d with
  | [] => None
  | (k', v) :: rest => if String.eqb k' k then Some v else dict_get rest k
  end.

Module TransformInSpark.

Section Resolver.

(** [Polygon(polygon).contains(Point(lon, lat))] of the geometry library:
    the ring as the catalog gives it, then the point.  The library raises
    on rings it cannot build. *)
Variable polygon_contains : json -> Q -> Q -> result bool.

(** The body of [check_in_polygons(lon, lat, polygons)], with the
    function's own recursive call as [self]. *)
Definition check_step (self : json -> result bool) (lon lat : Q)
    (polygons : json) : result bool :=
  match polygons with
  | JArr l =>
    (* isinstance(polygons, list) *)
    for_each
      (fun polygon =>
         (* the depth of the nesting differs from area to area *)
         if isinstance_list polygon then
           p0 <- getitem0 polygon ;;
           if isinstance_list p0 then
             p00 <- getitem0 p0 ;;
             if negb (isinstance_list p00) then
               b <- polygon_contains polygon lon lat ;;
               Ok (Some b)
             else
               b <- self polygon ;;
               Ok (Some b)
           else
             (* invalid argument *)
             Ok (Some false)
         else
           (* invalid argument *)
           Ok (Some false))
      (Ok false) l
  | _ => Ok false
  end.

(** [check_in_polygons(lon, lat, polygons)], run without a bound on the call
    stack: the recursion is on the structure of the geometry. *)
Fixpoint check_in_polygons (lon lat : Q) (polygons : json) {struct polygons}
  : result bool :=
  check_step (check_in_polygons lon lat) lon lat polygons.

(** The same function run with a call stack of [limit] frames, as the
    interpreter runs it: a call that finds no frame left raises
    [RecursionError].  The two runs agree on every geometry that nests less
    deeply than the stack has frames. *)
Fixpoint check_in_polygons_fuel (limit : nat) (lon lat : Q) (polygons : json)
  : result bool :=
  match limit with
  | O => Raise RecursionError
  | S limit' => check_step (check_in_polygons_fuel limit' lon lat) lon lat polygons
  end.

(** [recursive_call outer inner]: the invocation on [outer] makes its
    recursive call on [inner].  Read off the source: the loop variable
    [polygon] is a list, [polygon[0]] is a list and [polygon[0][0]] is a
    list, and the call is on [polygon], the first element visited. *)
Inductive recursive_call : json -> json -> Prop :=
| rc_first (polygon p0 p00 : json) (rest : list json) :
    isinstance_list polygon = true ->
    getitem0 polygon = Ok p0 ->
    isinstance_list p0 = true ->
    getitem0 p0 = Ok p00 ->
    isinstance_list p00 = true ->
    recursive_call (JArr (polygon :: rest)) polygon.

(** Translations of nation names. *)
Definition nation_dict : list (string * string) :=
  [("Germany", "Deutschland")].

(** [if nation in nation_dict.keys(): nation = nation_dict[nation]] *)
Definition translate (nation : option string) : option string :=
  match nation with
  | Some n =>
      match dict_get nation_dict n with
      | Some t => Some t
      | None => Some n
      end
  | None => None
  end.

Definition area_tuple : Type :=
  (option string * option string * option string * string)%type.

(** [find_area(lon, lat, geojson)], over the features of the catalog. *)
Definition find_area (lon lat : Q) (geojson : list Feature) : result area_tuple :=
  for_each
    (fun feature =>
       within_any <- check_in_polygons lon lat (coordinates feature) ;;
       if within_any then
         (* found areas, return *)
         let nation := translate (NAME_0 feature) in
         let state := NAME_1 feature in
         let county := NAME_3 feature in
         Ok (Some (nation, state, county, cols.automated))
       else Ok None)
    (* no areas found *)
    (Ok (None, None, None, cols.automated))
    geojson.

End Resolver.

(** *** A reference containment test

    An executable stand-in for the geometry library, used where a concrete
    polygon is evaluated: the ring's vertices are read as [[x, y]] pairs, a
    ring of fewer than three vertices or with a vertex that is no pair of
    numbers raises, and the point is contained when it is not on the ring
    and a ray from it crosses the ring an odd number of times. *)

Local Open Scope Q_scope.

Definition Qltb (a b : Q) : bool := negb (Qle_bool b a).

Definition vertex (v : json) : result (Q * Q) :=
  match v with
  | JArr (JNum x :: JNum y :: _) => Ok (x, y)
  | _ => Raise ValueError
  end.

Fixpoint vertices (l : list json) : result (list (Q * Q)) :=
  match l with
  | [] => Ok []
  | v :: rest => p <- vertex v ;; ps <- vertices rest ;; Ok (p :: ps)
  end.

(** The edges of the ring, the last vertex joined to the first. *)
Fixpoint ring_edges (first : Q * Q) (pts : list (Q * Q)) : list ((Q * Q) * (Q * Q)) :=
  match pts with
  | [] => []
  | p :: rest =>
      match rest with
      | [] => [(p, first)]
      | q :: _ => (p, q) :: ring_edges first rest
      end
  end.

Definition on_edge (px py : Q) (e : (Q * Q) * (Q * Q)) : bool :=
  let '((ax, ay), (bx, by_)) := e in
  Qeq_bool ((bx - ax) * (py - ay)) ((by_ - ay) * (px - ax))
  && Qle_bool ((px - ax) * (px - bx)) 0
  && Qle_bool ((py - ay) * (py - by_)) 0.

Definition ray_crosses (px py : Q) (e : (Q * Q) * (Q * Q)) : bool :=
  let '((ax, ay), (bx, by_)) := e in
  negb (Bool.eqb (Qltb py ay) (Qltb py by_))
  && Qltb px ((bx - ax) * (py - ay) / (by_ - ay) + ax).

Definition ring_contains (ring : json) (lon lat : Q) : result bool :=
  pts <- vertices (elements ring) ;;
  match pts with
  | first :: _ :: _ :: _ =>
      let es := ring_edges first pts in
      Ok (negb (existsb (on_edge lon lat) es)
          && Nat.odd (List.length (filter (ray_crosses lon lat) es)))
  | _ => Raise ValueError
  end.

Local Close Scope Q_scope.

(** The ring of the axis-parallel square with corners [(a,a)] and [(b,b)],
    as [[a,a],[a,b],[b,b],[b,a]]. *)
Definition square_ring (a b : Z) : json :=
  let pt x y := JArr [JNum (inject_Z x); JNum (inject_Z y)] in
  JArr [pt a a; pt a b; pt b b; pt b a].

(** [head_of outer inner]: [inner] is the first element of the list
    [outer]. *)
Definition head_of (outer inner : json) : Prop :=
  exists rest, outer = JArr (inner :: rest).

(** [heads g ring]: [ring] is reached from [g] by going to the first
    element one or more times. *)
Inductive heads : json -> json -> Prop :=
| heads_one (g inner : json) : head_of g inner -> heads g inner
| heads_more (g inner ring : json) :
    head_of g inner -> heads inner ring -> heads g ring.

(** A geometry wrapped in further lists, once per entry of [siblings], the
    entry being the elements that follow it in the wrapping list. *)
Definition nest (siblings : list (list json)) (g : json) : json :=
  fold_right (fun sib inner => JArr (inner :: sib)) g siblings.

End TransformInSpark.

(** ** The dataframe engine *)

(** A value of a pandas table: a missing value ([NaN], [None]), an integer,
    a float or a string. *)
Inductive Cell :=
| NA
| CInt (z : Z)
| CFloat (q : Q)
| CStr (s : string).

(** A row of a pandas table, column name to value, in column order. *)
Definition PRow : Type := list (string * Cell).

(** [row[col]], [None] when the table has no such column. *)
Fixpoint pd_get (col : string) (row : PRow) : option Cell :=
  match row with
  | [] => None
  | (c, v) :: rest => if String.eqb c col then Some v else pd_get col rest
  end.

Definition cell_eqb (a b : Cell) : bool :=
  match a, b with
  | NA, NA => true
  | CInt x, CInt y => Z.eqb x y
  | CFloat x, CFloat y => Z.eqb (Qnum x) (Qnum y) && Pos.eqb (Qden x) (Qden y)
  | CStr x, CStr y => String.eqb x y
  | _, _ => false
  end.

(** The row holds [v] in column [col]. *)
Definition has_key (col : string) (v : Cell) (row : PRow) : bool :=
  match pd_get col row with
  | Some c => cell_eqb c v
  | None => false
  end.

Definition float_cell (v : option Q) : Cell :=
  match v with Some q => CFloat q | None => NA end.
Definition int_cell (v : option Z) : Cell :=
  match v with Some z => CInt z | None => NA end.
Definition str_cell (v : option string) : Cell :=
  match v with Some s => CStr s | None => NA end.

Module Spark.

(** The non-null values of a column. *)
Fixpoint present {A} (vs : list (option A)) : list A :=
  match vs with
  | [] => []
  | Some v :: rest => v :: present rest
  | None :: rest => present rest
  end.

Definition Qsum (xs : list Q) : Q := fold_right Qplus 0%Q xs.

(** The arithmetic mean of a list of numbers. *)
Definition arithmetic_mean (xs : list Q) : Q :=
  (Qsum xs / inject_Z (Z.of_nat (List.length xs)))%Q.

(** [mean(col)]: the mean of the non-null values, null when there is none. *)
Definition mean (vs : list (option Q)) : option Q :=
  match present vs with
  | [] => None
  | xs => Some (arithmetic_mean xs)
  end.

(** [count(col)]: the number of non-null values. *)
Definition count {A} (vs : list (option A)) : Z :=
  Z.of_nat (List.length (present vs)).

Section Stddev.
(** The engine's square root on doubles. *)
Variable sqrt : Q -> Q.

(** [stddev(col)], the sample standard deviation of the non-null values:
    null for fewer than two of them (the division by zero gives null, in
    older versions of the engine NaN; either reaches pandas as a missing
    value). *)
Definition stddev (vs : list (option Q)) : option Q :=
  let xs := present vs in
  if (List.length xs <? 2)%nat then None
  else
    let m := arithmetic_mean xs in
    Some (sqrt (Qsum (map (fun x => (x - m) * (x - m)) xs)
                / inject_Z (Z.of_nat (List.length xs) - 1))%Q).
End Stddev.

(** [df.where(cond)]: the rows on which the condition is true (neither
    false nor null). *)
Definition where_ {R} (cond : R -> bool) (df : list R) : list R :=
  filter cond df.

(** [col(c).isNotNull()] *)
Definition isNotNull {R A} (c : R -> option A) (r : R) : bool :=
  match c r with Some _ => true | None => false end.

Section Keyed.
Context {K : Type}.
Variable K_dec : forall a b : K, {a = b} + {a <> b}.

Definition keyb (a b : K) : bool := if K_dec a b then true else false.

(** [df.groupby(key)]: one group per distinct key, with the rows of
    that key. *)
Definition groupby {R} (key : R -> K) (df : list R) : list (K * list R) :=
  map (fun k => (k, filter (fun r => keyb (key r) k) df))
      (nodup K_dec (map key df)).

(** [.agg(...)]: one row per group, the key and the aggregates. *)
Definition agg {R P} (f : list R -> P) (groups : list (K * list R))
  : list (K * P) :=
  map (fun g => (fst g, f (snd g))) groups.

(** The rows a left row gives in an outer join: one per right row of its
    key, and one if there is none. *)
Definition join_left_rows {P} (right : list K) (l : K * P) : list (K * P) :=
  match filter (keyb (fst l)) right with
  | [] => [l]
  | partners => map (fun _ => l) partners
  end.

(** [left.join(right, on=key, how='outer')] with a one-columned [right]:
    a row for every pair of a left and a right row of the same key, the
    left rows without partner, and the right rows without partner, these
    with nulls in the left's columns. *)
Definition join_outer {P} (nulls : P) (left : list (K * P)) (right : list K)
  : list (K * P) :=
  flat_map (join_left_rows right) left
  ++ map (fun k => (k, nulls))
       (filter (fun k => negb (existsb (fun l => keyb (fst l) k) left)) right).

(** [df.drop_duplicates([key])]: one row of every key. *)
Fixpoint drop_duplicates_from {R} (seen : list K) (key : R -> K) (df : list R)
  : list R :=
  match df with
  | [] => []
  | r :: rest =>
      if in_dec K_dec (key r) seen then drop_duplicates_from seen key rest
      else r :: drop_duplicates_from (key r :: seen) key rest
  end.

Definition drop_duplicates {R} (key : R -> K) (df : list R) : list R :=
  drop_duplicates_from [] key df.
End Keyed.

(** [df.sort(key, ascending=True)] on an integer key. *)
Fixpoint insert_sorted {P} (x : Z * P) (l : list (Z * P)) : list (Z * P) :=
  match l with
  | [] => [x]
  | y :: rest =>
      if (fst x <=? fst y)%Z then x :: l else y :: insert_sorted x rest
  end.

Definition sort {P} (df : list (Z * P)) : list (Z * P) :=
  fold_right insert_sorted [] df.

(** [Window.currentRow] *)
Definition currentRow : Z := 0.

(** [Window.orderBy(order).rangeBetween(lo, hi)]: the frame of a row holds
    the rows whose ordering value lies within [lo] and [hi] of its own. *)
Definition rangeBetween {R} (order : R -> Z) (lo hi : Z) (df : list R) (r : R)
  : list R :=
  filter (fun r' => (order r + lo <=? order r') && (order r' <=? order r + hi)) df.

End Spark.

Module Aggregate.

Import Spark.

(** A row of the measurement table: the station, the year, the area columns
    (one per level of detail, each a name or null) and the value columns
    (each a number or null; the pivot temperature is one of them).  The
    schema is fixed: station and year are never null, and a query on a
    column the table lacks, which the engine refuses, is not modelled. *)
Record Row := mkRow {
  sdo_id : string;
  year : Z;
  area_cols : string -> option string;
  value_cols : string -> option Q
}.

(** [col(name)] on an area column and on a value column. *)
Definition col_area (name : string) (r : Row) : option string := area_cols r name.
Definition col_value (name : string) (r : Row) : option Q := value_cols r name.

(** [df.withColumn(name, expr)] for a value column. *)
Definition withColumn (name : string) (expr : Row -> option Q) (df : list Row)
  : list Row :=
  map (fun r =>
         mkRow (sdo_id r) (year r) (area_cols r)
               (fun c => if String.eqb c name then expr r else value_cols r c))
      df.

(** [a - b] on columns: null when either side is. *)
Definition col_sub (a b : Row -> option Q) (r : Row) : option Q :=
  match a r, b r with
  | Some x, Some y => Some (x - y)%Q
  | _, _ => None
  end.

(** [col(c) == v] on an area column: true on the rows that hold [v]. *)
Definition area_is (name : string) (v : string) (r : Row) : bool :=
  match col_area name r with
  | Some a => String.eqb a v
  | None => false
  end.

(** The aggregates of a result row: mean, stddev and station count, each
    nullable after the join. *)
Definition Stats : Type := (option Q * option Q * option Z)%type.

Definition null_stats : Stats := (None, None, None).

(** [.fillna(0, cols.stations)]: a null station count becomes 0, the other
    columns stay as they are. *)
Definition fill_stations (st : Stats) : Stats :=
  match st with
  | (m, s, Some n) => (m, s, Some n)
  | (m, s, None) => (m, s, Some 0)
  end.

Definition fillna_stations {K} (df : list (K * Stats)) : list (K * Stats) :=
  map (fun r => (fst r, fill_stations (snd r))) df.

(** A row of the pandas table of a key and the three aggregates. *)
Definition stats_record (keycol : string) (key : Cell) (st : Stats) : PRow :=
  let '(m, s, n) := st in
  [(keycol, key); (cols.mean, float_cell m);
   (cols.stddev, float_cell s); (cols.stations, int_cell n)].

(** [.toPandas()] of a table of a key and the three aggregates. *)
Definition toPandas_stats {K} (keycol : string) (key_cell : K -> Cell)
    (df : list (K * Stats)) : list PRow :=
  map (fun r => stats_record keycol (key_cell (fst r)) (snd r)) df.

(** A row of the pandas table of the year and the running mean. *)
Definition running_record (y : Z) (running : option Q) : PRow :=
  [(cols.year, CInt y); (cols.running, float_cell running)].

(** [.toPandas()] of the table of the year and the running mean. *)
Definition toPandas_running (df : list (Z * option Q)) : list PRow :=
  map (fun r => running_record (fst r) (snd r)) df.

Definition option_string_dec : forall a b : option string, {a = b} + {a <> b}.
Proof. decide equality. apply string_dec. Defined.

Section Aggregator.

(** The engine's square root on doubles. *)
Variable sqrt : Q -> Q.

(** [.agg(mean(c), stddev(c), count(c))] on the rows of a group. *)
Definition stats_of (vs : list (option Q)) : Stats :=
  (mean vs, stddev sqrt vs, Some (count vs)).

Definition agg_stats (c : Row -> option Q) (group : list Row) : Stats :=
  stats_of (map c group).

(** [aggregate_spatially(sdf, year, value_col_name, area_col_name, full_area_list)].
    The key column, renamed to [cols.area], is nullable; the one-columned
    table of the area names holds names only.  The engine fixes no order
    for the rows of a join that is not sorted; the model lists the rows of
    the groups first. *)
Definition aggregate_spatially (sdf : list Row) (year_ : Z)
    (value_col_name area_col_name : string) (full_area_list : list string)
  : list PRow :=
  toPandas_stats cols.area str_cell
    (fillna_stations
       (join_outer option_string_dec null_stats
          (agg (agg_stats (col_value value_col_name))
             (groupby option_string_dec (col_area area_col_name)
                (where_ (isNotNull (col_value value_col_name))
                   (where_ (fun r => year r =? year_)
                      (where_ (isNotNull (col_area area_col_name)) sdf)))))
          (map Some full_area_list))).

(** [aggregate_temporarly(sdf, value_col_name, area, area_col_name, sdf_years)] *)
Definition aggregate_temporarly (sdf : list Row) (value_col_name area
    area_col_name : string) (sdf_years : list Z) : list PRow :=
  toPandas_stats cols.year CInt
    (sort
       (fillna_stations
          (join_outer Z.eq_dec null_stats
             (agg (agg_stats (col_value value_col_name))
                (groupby Z.eq_dec year
                   (where_ (area_is area_col_name area) sdf)))
             sdf_years))).

(** [aggregate_differences(sdf, area, area_col_name, sdf_years)] *)
Definition aggregate_differences (sdf : list Row) (area area_col_name : string)
    (sdf_years : list Z) : list PRow :=
  toPandas_stats cols.year CInt
    (sort
       (fillna_stations
          (join_outer Z.eq_dec null_stats
             (agg (agg_stats (col_value cols.diff))
                (groupby Z.eq_dec year
                   (withColumn cols.diff
                      (col_sub (col_value cols.temperature)
                               (col_value cols.pivot_temp))
                      (where_ (area_is area_col_name area) sdf))))
             sdf_years))).

End Aggregator.

(** [aggregate_running_mean(sdf, value_col_name, area, area_col_name, sdf_years)] *)
Definition aggregate_running_mean (sdf : list Row) (value_col_name area
  area_col_name : string) (sdf_years : list Z) : list PRow :=
(* 7-year-window from six years ago to this years *)
let window := rangeBetween year (-6) currentRow in
let restricted := where_ (area_is area_col_name area) sdf in
toPandas_running
  (sort
     (join_outer Z.eq_dec None
        (map (fun r => (year r, col_value cols.running r))
           (drop_duplicates Z.eq_dec year
              (withColumn cols.running
                 (fun r => mean (map (col_value value_col_name) (window restricted r)))
                 restricted)))
        sdf_years)).

(** [get_pivotal_mean(df, start_year, end_year)]: the station and its pivot
    temperature in each row. *)
Definition get_pivotal_mean (df : list Row) (start_year end_year : Z)
  : list (string * option Q) :=
  agg (fun group => mean (map (col_value cols.temperature) group))
    (groupby string_dec sdo_id
       (where_ (fun r => year r <=? end_year)
          (where_ (fun r => start_year <=? year r) df))).

(** ** The words of the specification

    The rows and values the specification speaks of, written directly over
    the measurement table, and the shapes of a result row it names. *)

(** The values of column [v] on the rows of area [k] in the year [y]. *)
Definition values_of_area_in_year (sdf : list Row) (v a k : string) (y : Z)
  : list (option Q) :=
  map (col_value v) (filter (fun r => area_is a k r && (year r =? y)) sdf).

(** The differences (observed temperature minus the row's pivot temperature)
    on the rows of area [k] in the year [y]. *)
Definition differences_in_year (sdf : list Row) (a k : string) (y : Z)
  : list (option Q) :=
  map (col_sub (col_value cols.temperature) (col_value cols.pivot_temp))
      (filter (fun r => area_is a k r && (year r =? y)) sdf).

(** The values of column [v] on the rows of area [k] whose year lies in the
    inclusive range from [y - 6] to [y]. *)
Definition values_in_window (sdf : list Row) (v a k : string) (y : Z)
  : list (option Q) :=
  map (col_value v)
      (filter (fun r => area_is a k r && ((y - 6 <=? year r) && (year r <=? y))) sdf).

(** The table has a row of area [k] in the year [y]. *)
Definition has_row (sdf : list Row) (a k : string) (y : Z) : Prop :=
  exists r, In r sdf /\ area_is a k r = true /\ year r = y.

(** The temperatures of the rows of station [s] with a year from
    [start_year] to [end_year], both included. *)
Definition station_temperatures (df : list Row) (s : string)
    (start_year end_year : Z) : list (option Q) :=
  map (col_value cols.temperature)
      (filter (fun r => String.eqb (sdo_id r) s
                        && ((start_year <=? year r) && (year r <=? end_year))) df).

(** The observations of station [s] within the interval: the temperatures
    that its rows with a year from [start_year] to [end_year], both
    included, hold; a row without a temperature is no observation. *)
Definition observations (df : list Row) (s : string) (start_year end_year : Z)
  : list Q :=
  flat_map (fun r => match value_cols r cols.temperature with
                     | Some t => [t]
                     | None => []
                     end)
    (filter (fun r => String.eqb (sdo_id r) s
                      && ((start_year <=? year r) && (year r <=? end_year))) df).

(** The mean value of numbers: their sum divided by their number. *)
Definition sum_by_number (xs : list Q) : Q :=
  (fold_right Qplus 0 xs / inject_Z (Z.of_nat (List.length xs)))%Q.

(** The pivot of a station with the observations [xs]: their mean value,
    null when there is none. *)
Definition pivot_of (xs : list Q) : option Q :=
  match xs with
  | [] => None
  | _ :: _ => Some (sum_by_number xs)
  end.

(** The difference the specification speaks of, on one row: the observed
    temperature minus the row's pivot temperature, null when the row lacks
    either. *)
Definition observed_minus_pivot (r : Row) : option Q :=
  match value_cols r cols.temperature with
  | Some observed =>
      match value_cols r cols.pivot_temp with
      | Some pivot => Some (observed - pivot)%Q
      | None => None
      end
  | None => None
  end.

(** These differences on the rows of area [k] in the year [y]. *)
Definition observed_minus_pivot_in_year (sdf : list Row) (a k : string) (y : Z)
  : list (option Q) :=
  map observed_minus_pivot
      (filter (fun r => match area_cols r a with
                        | Some name => String.eqb name k
                        | None => false
                        end && (year r =? y)) sdf).

(** A result row without data: null mean, null stddev, station count 0. *)
Definition empty_stats (rec : PRow) : Prop :=
  pd_get cols.mean rec = Some NA
  /\ pd_get cols.stddev rec = Some NA
  /\ pd_get cols.stations rec = Some (CInt 0).

(** The station count of every row is a number, never null. *)
Definition count_never_null (out : list PRow) : Prop :=
  forall rec, In rec out -> exists n, pd_get cols.stations rec = Some (CInt n).

(** The stddev is null on every row whose station count is below 2, and a
    row of station count 1 still has its mean. *)
Definition stddev_null_below_two (out : list PRow) : Prop :=
  forall rec n,
    In rec out -> pd_get cols.stations rec = Some (CInt n) -> n < 2 ->
    pd_get cols.stddev rec = Some NA
    /\ (n = 1 -> exists m, pd_get cols.mean rec = Some (CFloat m)).

(** The rows of the table come in ascending order of the year. *)
Definition sorted_by_year (out : list PRow) : Prop :=
  exists ys, map (pd_get cols.year) out = map (fun y => Some (CInt y)) ys
             /\ StronglySorted Z.le ys.

(** The table has a row of area [k] in the year [y] with a value in
    column [v]. *)
Definition has_valued_row (sdf : list Row) (v a k : string) (y : Z) : Prop :=
  exists r, In r sdf /\ area_is a k r = true /\ year r = y
            /\ col_value v r <> None.

(** The rows of the table come in strictly ascending order of the year. *)
Definition strictly_sorted_by_year (out : list PRow) : Prop :=
  exists ys, map (pd_get cols.year) out = map (fun y => Some (CInt y)) ys
             /\ StronglySorted Z.lt ys.

(** The sum of the station counts of a table. *)
Definition total_stations (out : list PRow) : Z :=
  fold_right
    (fun rec acc =>
       match pd_get cols.stations rec with
       | Some (CInt n) => n + acc
       | _ => acc
       end) 0 out.

(** The sum of the station counts of a table of a key and the three
    aggregates, a null count adding nothing. *)
Definition stations_sum {K} (df : list (K * Stats)) : Z :=
  fold_right
    (fun r acc =>
       match snd (snd r) with
       | Some n => n + acc
       | None => acc
       end) 0 df.

(** On every row the stddev goes with the station count: null below two,
    and from two on the engine's root of a number that is not negative. *)
Definition stddev_is_root_of_variance (sqrt : Q -> Q) (out : list PRow) : Prop :=
  forall rec,
    In rec out ->
    exists n,
      pd_get cols.stations rec = Some (CInt n)
      /\ ((n < 2 /\ pd_get cols.stddev rec = Some NA)
          \/ (2 <= n
              /\ exists x, pd_get cols.stddev rec = Some (CFloat (sqrt x))
                           /\ (0 <= x)%Q)).

End Aggregate.

(** ** Sample data *)

Module Samples.
Import TransformInSpark Aggregate.

(** A measurement of [temp] in area ["A"] (column ["state"]), with the
    station's pivot temperature. *)
Definition measurement (station : string) (y : Z) (temp pivot : option Q) : Row :=
  mkRow station y
    (fun c => if String.eqb c "state" then Some "A" else None)
    (fun c => if String.eqb c cols.temperature then temp
              else if String.eqb c cols.pivot_temp then pivot else None).

(** Area ["A"] with the values 10 and 20 in the year 2000. *)
Definition two_in_2000 : list Row :=
  [measurement "s1" 2000 (Some 10%Q) (Some 8%Q);
   measurement "s2" 2000 (Some 20%Q) (Some 21%Q)].

(** Area ["A"] with the single value 10 in the year 2000. *)
Definition one_in_2000 : list Row :=
  [measurement "s1" 2000 (Some 10%Q) (Some 8%Q)].

(** A stand-in for the engine's square root: Newton's iteration. *)
Fixpoint newton (n : nat) (a x : Q) : Q :=
  match n with
  | O => x
  | S n' => newton n' a (Qred ((x + a / x) / 2))%Q
  end.
Definition sqrt_newton (a : Q) : Q :=
  if Qle_bool a 0 then 0%Q else newton 5 a 1%Q.

(** The catalog of the specification's example: one feature, a polygon
    whose ring is the square from (0,0) to (10,10). *)
Definition munich : Feature :=
  mkFeature (JArr [square_ring 0 10]) (Some "Germany") (Some "Bavaria") (Some "Munich").
End Samples.


(** * Properties of the area resolver *)

Section ResolverProperties.

Import TransformInSpark.

Variable polygon_contains : json -> Q -> Q -> result bool.

Local Abbreviation check := (check_in_polygons polygon_contains).
Local Abbreviation step := (check_step polygon_contains).

Lemma check_in_polygons_unfold (lon lat : Q) (polygons : json) :
  check lon lat polygons = step (check lon lat) lon lat polygons.
Proof. destruct polygons; reflexivity. Qed.

(** The loop body returns on every path, so the loop ends with the first
    element: the elements after it never matter. *)
Lemma check_step_first_only (self : json -> result bool) (lon lat : Q)
    (first : json) (rest : list json) :
  step self lon lat (JArr (first :: rest)) = step self lon lat (JArr [first]).
Proof.
  unfold check_step, for_each.
  destruct (isinstance_list first); [|reflexivity].
  destruct (getitem0 first) as [p0|e]; simpl; [|reflexivity].
  destruct (isinstance_list p0); [|reflexivity].
  destruct (getitem0 p0) as [p00|e]; simpl; [|reflexivity].
  destruct (isinstance_list p00); simpl.
  - destruct (self first); reflexivity.
  - destruct (polygon_contains first lon lat); reflexivity.
Qed.

(** On a ring (a list whose first element is a list that starts with a
    non-list), the step is the library's containment test of that ring. *)
Lemma check_step_ring (self : json -> result bool) (lon lat : Q)
    (x : json) (xs pts rest : list json) :
  isinstance_list x = false ->
  step self lon lat (JArr (JArr (JArr (x :: xs) :: pts) :: rest))
  = polygon_contains (JArr (JArr (x :: xs) :: pts)) lon lat.
Proof.
  intros Hx. unfold check_step, for_each. simpl. rewrite Hx. simpl.
  destruct (polygon_contains _ lon lat); reflexivity.
Qed.

(** When the invocation on [outer] recurses on [inner], its result is the
    result of that call. *)
Lemma check_step_recursive_call (self : json -> result bool) (lon lat : Q)
    (outer inner : json) :
  recursive_call outer inner -> step self lon lat outer = self inner.
Proof.
  intros H. destruct H as [polygon p0 p00 rest H1 H2 H3 H4 H5].
  unfold check_step, for_each.
  rewrite H1, H2. simpl. rewrite H3, H4. simpl. rewrite H5. simpl.
  destruct (self polygon); reflexivity.
Qed.

(** The step consults [self] only through the recursive call. *)
Lemma check_step_ext (self self' : json -> result bool) (lon lat : Q) (g : json) :
  (forall inner, recursive_call g inner -> self inner = self' inner) ->
  step self lon lat g = step self' lon lat g.
Proof.
  intros H. destruct g as [| | | |l|]; try reflexivity.
  destruct l as [|polygon rest]; [reflexivity|].
  unfold check_step, for_each.
  destruct (isinstance_list polygon) eqn:H1; [|reflexivity].
  destruct (getitem0 polygon) as [p0|e] eqn:H2; simpl; [|reflexivity].
  destruct (isinstance_list p0) eqn:H3; [|reflexivity].
  destruct (getitem0 p0) as [p00|e] eqn:H4; simpl; [|reflexivity].
  destruct (isinstance_list p00) eqn:H5; simpl.
  - rewrite (H polygon) by (econstructor; eassumption).
    destruct (self' polygon); reflexivity.
  - destruct (polygon_contains polygon lon lat); reflexivity.
Qed.

Lemma recursive_call_element (outer inner : json) :
  recursive_call outer inner -> In inner (elements outer).
Proof. intros H. destruct H. simpl. now left. Qed.

Lemma recursive_call_depth (outer inner : json) :
  recursive_call outer inner -> (depth inner < depth outer)%nat.
Proof. intros H. destruct H. simpl. lia. Qed.

Lemma recursive_call_wf :
  well_founded (fun inner outer => recursive_call outer inner).
Proof.
  apply (well_founded_lt_compat _ depth).
  intros inner outer H. now apply recursive_call_depth.
Qed.

(** A call stack deeper than the nesting is never exhausted: the bounded run
    is the unbounded one. *)
Lemma check_in_polygons_fuel_enough (limit : nat) :
  forall (lon lat : Q) (g : json),
    (depth g < limit)%nat ->
    check_in_polygons_fuel polygon_contains limit lon lat g = check lon lat g.
Proof.
  induction limit as [|n IH]; intros lon lat g Hd; [lia|].
  rewrite check_in_polygons_unfold. simpl.
  apply check_step_ext. intros inner Hc.
  apply IH. apply recursive_call_depth in Hc. lia.
Qed.

(** The unbounded run raises [RecursionError] only if the library does. *)
Lemma check_in_polygons_no_recursion_error :
  (forall ring x y, polygon_contains ring x y <> Raise RecursionError) ->
  forall (lon lat : Q) (g : json), check lon lat g <> Raise RecursionError.
Proof.
  intros Hpc lon lat g.
  induction g as [g IH] using (well_founded_induction recursive_call_wf).
  rewrite check_in_polygons_unfold.
  destruct g as [| | | |l|]; try discriminate.
  destruct l as [|polygon rest]; [discriminate|].
  unfold check_step, for_each.
  destruct (isinstance_list polygon) eqn:H1; [|discriminate].
  destruct (getitem0 polygon) as [p0|e] eqn:H2; simpl.
  2:{ destruct polygon as [| | | |[|? ?]|]; simpl in H2; congruence. }
  destruct (isinstance_list p0) eqn:H3; [|discriminate].
  destruct (getitem0 p0) as [p00|e] eqn:H4; simpl.
  2:{ destruct p0 as [| | | |[|? ?]|]; simpl in H4; congruence. }
  destruct (isinstance_list p00) eqn:H5; simpl.
  - specialize (IH polygon (rc_first polygon p0 p00 rest H1 H2 H3 H4 H5)).
    destruct (check lon lat polygon); simpl; [discriminate|exact IH].
  - specialize (Hpc polygon lon lat).
    destruct (polygon_contains polygon lon lat); simpl; [discriminate|exact Hpc].
Qed.

Lemma find_area_cons (lon lat : Q) (feature : Feature) (rest : list Feature) :
  find_area polygon_contains lon lat (feature :: rest) =
  match check lon lat (coordinates feature) with
  | Raise e => Raise e
  | Ok true =>
      Ok (translate (NAME_0 feature), NAME_1 feature, NAME_3 feature, cols.automated)
  | Ok false => find_area polygon_contains lon lat rest
  end.
Proof.
  unfold find_area, for_each.
  destruct (check lon lat (coordinates feature)) as [[|]|e]; reflexivity.
Qed.

Lemma find_area_first_match (lon lat : Q) (before : list Feature)
    (feature : Feature) (after : list Feature) :
  (forall f, In f before -> check lon lat (coordinates f) = Ok false) ->
  check lon lat (coordinates feature) = Ok true ->
  find_area polygon_contains lon lat (before ++ feature :: after) =
  Ok (translate (NAME_0 feature), NAME_1 feature, NAME_3 feature, cols.automated).
Proof.
  intros Hb Hf. induction before as [|f before IH]; simpl app.
  - rewrite find_area_cons, Hf. reflexivity.
  - rewrite find_area_cons, (Hb f) by now left.
    apply IH. intros f' Hin. apply Hb. now right.
Qed.

Lemma find_area_no_match (lon lat : Q) (geojson : list Feature) :
  (forall f, In f geojson -> check lon lat (coordinates f) = Ok false) ->
  find_area polygon_contains lon lat geojson = Ok (None, None, None, cols.automated).
Proof.
  intros H. induction geojson as [|f rest IH].
  - reflexivity.
  - rewrite find_area_cons, (H f) by now left.
    apply IH. intros f' Hin. apply H. now right.
Qed.

Lemma translate_other (n : string) :
  n <> "Germany" -> translate (Some n) = Some n.
Proof.
  intros H. unfold translate, nation_dict, dict_get.
  destruct (String.eqb "Germany" n) eqn:E; [|reflexivity].
  apply String.eqb_eq in E. congruence.
Qed.

End ResolverProperties.

Import TransformInSpark Samples.

(** C5: on a geometry that lists several rings at one nesting level the
    containment test looks at the first one only and returns its result at
    once, so the rings after it never matter (no logical OR over the rings);
    a point inside a later ring and outside the first is reported as not
    contained, both for a flat list of rings and for GeoJSON's nesting of a
    multi-polygon. *)
Theorem check_in_polygons_first_ring_only :
  (forall pc lon lat first rest,
      check_in_polygons pc lon lat (JArr (first :: rest))
      = check_in_polygons pc lon lat (JArr [first]))
  /\ (forall pc lon lat x xs pts rest,
         isinstance_list x = false ->
         check_in_polygons pc lon lat (JArr (JArr (JArr (x :: xs) :: pts) :: rest))
         = pc (JArr (JArr (x :: xs) :: pts)) lon lat)
  /\ (ring_contains (square_ring 0 10) 25 25 = Ok false
      /\ ring_contains (square_ring 20 30) 25 25 = Ok true
      /\ check_in_polygons ring_contains 25 25
           (JArr [square_ring 0 10; square_ring 20 30]) = Ok false
      /\ check_in_polygons ring_contains 25 25
           (JArr [JArr [square_ring 0 10]; JArr [square_ring 20 30]]) = Ok false).
Proof.
  split; [|split].
  - intros pc lon lat first rest.
    rewrite !check_in_polygons_unfold. apply check_step_first_only.
  - intros pc lon lat x xs pts rest Hx.
    rewrite check_in_polygons_unfold. now apply check_step_ring.
  - repeat split; vm_compute; reflexivity.
Qed.

Lemma check_in_polygons_first_ring_only_witness :
  isinstance_list (JNum 0) = false
  /\ check_in_polygons ring_contains 25 25
       (JArr [square_ring 0 10; square_ring 20 30])
     = ring_contains (square_ring 0 10) 25 25.
Proof.
  split; [reflexivity|].
  exact (proj1 (proj2 check_in_polygons_first_ring_only)
           ring_contains 25%Q 25%Q (JNum 0) _ _ _ eq_refl).
Defined.

(** C6: a geometry with an empty list where a ring or a polygon is expected
    does not degrade to "not contained": indexing the empty list raises
    [IndexError], out of the containment test and out of the area lookup. *)
Theorem check_in_polygons_empty_list_raises :
  forall pc lon lat,
    check_in_polygons pc lon lat (JArr [JArr []]) = Raise IndexError
    /\ check_in_polygons pc lon lat (JArr [JArr [JArr []]]) = Raise IndexError
    /\ (forall n0 n1 n3 rest,
           find_area pc lon lat (mkFeature (JArr [JArr []]) n0 n1 n3 :: rest)
           = Raise IndexError).
Proof.
  intros pc lon lat. split; [reflexivity|split; [reflexivity|]].
  intros n0 n1 n3 rest. rewrite find_area_cons. reflexivity.
Qed.

(** C7: the area lookup goes through the features in catalog order and
    answers with the first feature whose geometry contains the point: its
    nation after the translation table (which renames Germany and nothing
    else, and touches the nation only), its state, its county and the tag
    [automated]; when no feature contains the point the answer is
    [(null, null, null, automated)].  On the one-feature catalog of the
    square from (0,0) to (10,10) named Germany/Bavaria/Munich, the point
    (5,5) resolves to Deutschland/Bavaria/Munich and (50,50) to the nulls. *)
Theorem find_area_first_containing_feature :
  (forall pc lon lat before feature after,
      (forall f, In f before ->
                 check_in_polygons pc lon lat (coordinates f) = Ok false) ->
      check_in_polygons pc lon lat (coordinates feature) = Ok true ->
      find_area pc lon lat (before ++ feature :: after)
      = Ok (translate (NAME_0 feature), NAME_1 feature, NAME_3 feature,
            cols.automated))
  /\ (forall pc lon lat geojson,
         (forall f, In f geojson ->
                    check_in_polygons pc lon lat (coordinates f) = Ok false) ->
         find_area pc lon lat geojson = Ok (None, None, None, cols.automated))
  /\ (translate (Some "Germany") = Some "Deutschland"
      /\ translate None = None
      /\ forall n, n <> "Germany" -> translate (Some n) = Some n)
  /\ (cols.automated = "automated"
      /\ find_area ring_contains 5 5 [munich]
         = Ok (Some "Deutschland", Some "Bavaria", Some "Munich", "automated")
      /\ find_area ring_contains 50 50 [munich]
         = Ok (None, None, None, "automated")).
Proof.
  split; [|split; [|split]].
  - intros. now apply find_area_first_match.
  - intros. now apply find_area_no_match.
  - split; [reflexivity|split; [reflexivity|]]. apply translate_other.
  - repeat split; vm_compute; reflexivity.
Qed.

Lemma find_area_first_containing_feature_witness :
  find_area ring_contains 5 5
    ([mkFeature (JArr [square_ring 20 30]) (Some "France") None None]
       ++ munich :: [munich])
  = Ok (translate (NAME_0 munich), NAME_1 munich, NAME_3 munich, cols.automated).
Proof.
  apply (proj1 find_area_first_containing_feature).
  - intros f [<-|[]]. vm_compute. reflexivity.
  - vm_compute. reflexivity.
Defined.

(** C10: the containment test does not return a boolean on every finite
    nested-list geometry.  On the list that holds one empty list the run
    ends, after one invocation, by raising [IndexError] at [polygon[0]]: the
    defect of C6.  A call stack of any size gives the same. *)
Theorem check_in_polygons_not_always_boolean :
  forall pc lon lat,
    check_in_polygons pc lon lat (JArr [JArr []]) = Raise IndexError
    /\ ~ (exists b, check_in_polygons pc lon lat (JArr [JArr []]) = Ok b)
    /\ (forall limit,
           check_in_polygons_fuel pc (S limit) lon lat (JArr [JArr []])
           = Raise IndexError).
Proof.
  intros pc lon lat. split; [reflexivity|split].
  - intros [b H]. discriminate H.
  - intros limit. reflexivity.
Qed.

(** * Properties of the dataframe engine *)

Section ListFacts.

Context {A : Type}.

Lemma filter_none (f : A -> bool) (l : list A) :
  (forall x, In x l -> f x = false) -> filter f l = [].
Proof.
  induction l as [|a l IH]; intros H; simpl; [reflexivity|].
  rewrite (H a) by now left. apply IH. intros x Hx. apply H. now right.
Qed.

Lemma filter_only (f : A -> bool) (k : A) (l : list A) :
  NoDup l -> In k l -> (forall x, In x l -> (f x = true <-> x = k)) ->
  filter f l = [k].
Proof.
  induction l as [|a l IH]; intros Hnd Hin Hf; [destruct Hin|].
  inversion Hnd as [|? ? Hna Hnd']; subst. simpl.
  destruct (f a) eqn:E.
  - assert (a = k) by (apply Hf; [now left|assumption]). subst a.
    f_equal. apply filter_none. intros x Hx.
    destruct (f x) eqn:Ex; [|reflexivity].
    assert (x = k) by (apply Hf; [now right|assumption]). subst x. contradiction.
  - destruct Hin as [->|Hin].
    + assert (f k = true) by (apply Hf; [now left|reflexivity]). congruence.
    + apply IH; [assumption|assumption|].
      intros x Hx. apply Hf. now right.
Qed.

Lemma filter_map_swap {B : Type} (f : B -> bool) (h : A -> B) (l : list A) :
  filter f (map h l) = map h (filter (fun x => f (h x)) l).
Proof.
  induction l as [|a l IH]; simpl; [reflexivity|].
  destruct (f (h a)); simpl; now rewrite IH.
Qed.

Lemma filter_perm (f : A -> bool) (l l' : list A) :
  Permutation l l' -> Permutation (filter f l) (filter f l').
Proof.
  induction 1 as [|x l l' _ IH|x y l|l l' l'' _ IH1 _ IH2]; simpl.
  - constructor.
  - destruct (f x); [now constructor|assumption].
  - destruct (f x), (f y); try reflexivity. constructor.
  - now transitivity (filter f l').
Qed.

Lemma filter_filter (f g : A -> bool) (l : list A) :
  filter f (filter g l) = filter (fun x => g x && f x) l.
Proof.
  induction l as [|a l IH]; simpl; [reflexivity|].
  destruct (g a); simpl; [destruct (f a)|]; now rewrite IH.
Qed.

End ListFacts.

Section KeyedFacts.

Import Spark.

Context {K : Type}.
Variable K_dec : forall a b : K, {a = b} + {a <> b}.

Local Abbreviation kb := (keyb K_dec).

Lemma keyb_true (a b : K) : kb a b = true <-> a = b.
Proof. unfold keyb. destruct (K_dec a b); split; congruence. Qed.

Lemma keyb_false (a b : K) : kb a b = false <-> a <> b.
Proof. unfold keyb. destruct (K_dec a b); split; congruence. Qed.

Lemma keyb_refl (a : K) : kb a a = true.
Proof. now apply keyb_true. Qed.

(** *** groupby and agg *)

Lemma groupby_keys {R} (key : R -> K) (df : list R) :
  map fst (groupby K_dec key df) = nodup K_dec (map key df).
Proof. unfold groupby. rewrite map_map. simpl. apply map_id. Qed.

Lemma agg_keys {R P} (f : list R -> P) (groups : list (K * list R)) :
  map fst (agg f groups) = map fst groups.
Proof. unfold agg. rewrite map_map. reflexivity. Qed.

Lemma In_agg_groupby {R P} (f : list R -> P) (key : R -> K) (df : list R)
    (k : K) (p : P) :
  In (k, p) (agg f (groupby K_dec key df)) <->
  In k (map key df) /\ p = f (filter (fun r => kb (key r) k) df).
Proof.
  unfold agg, groupby. rewrite map_map. simpl. rewrite in_map_iff. split.
  - intros [k' [E Hin]]. inversion E; subst. split; [|reflexivity].
    now apply nodup_In in Hin.
  - intros [Hin ->]. exists k. split; [reflexivity|]. now apply nodup_In.
Qed.

Lemma agg_groupby_NoDup {R P} (f : list R -> P) (key : R -> K) (df : list R) :
  NoDup (map fst (agg f (groupby K_dec key df))).
Proof. rewrite agg_keys, groupby_keys. apply NoDup_nodup. Qed.

Lemma agg_groupby_keys {R P} (f : list R -> P) (key : R -> K) (df : list R) (k : K) :
  In k (map fst (agg f (groupby K_dec key df))) <-> In k (map key df).
Proof. rewrite agg_keys, groupby_keys. apply nodup_In. Qed.

(** *** The outer join *)

Lemma not_in_left {P} (left : list (K * P)) (k : K) :
  negb (existsb (fun l => kb (fst l) k) left) = true <-> ~ In k (map fst left).
Proof.
  rewrite negb_true_iff. split.
  - intros H Hin. apply in_map_iff in Hin as [l [E Hl]].
    assert (existsb (fun l => kb (fst l) k) left = true).
    { apply existsb_exists. exists l. split; [assumption|]. now apply keyb_true. }
    congruence.
  - intros H. destruct (existsb _ left) eqn:E; [|reflexivity].
    apply existsb_exists in E as [l [Hl E]]. apply keyb_true in E.
    exfalso. apply H. apply in_map_iff. now exists l.
Qed.

Lemma In_partners {P} (l r : K * P) (right : list K) :
  In r (join_left_rows K_dec right l) <-> r = l.
Proof.
  unfold join_left_rows.
  destruct (filter (kb (fst l)) right) as [|k ks]; simpl.
  - split; [intros [H|[]]; now subst|intros ->; now left].
  - split; [|intros ->; now left].
    intros [H|H]; [now subst|]. apply in_map_iff in H as [? [H _]]. now subst.
Qed.

Lemma In_join_outer {P} (nulls : P) (left : list (K * P)) (right : list K)
    (k : K) (p : P) :
  In (k, p) (join_outer K_dec nulls left right) <->
  In (k, p) left \/ (In k right /\ ~ In k (map fst left) /\ p = nulls).
Proof.
  unfold join_outer. rewrite in_app_iff, in_flat_map, in_map_iff. split.
  - intros [[l [Hl Hin]]|[k' [E Hin]]].
    + apply In_partners in Hin. subst l. now left.
    + inversion E; subst. apply filter_In in Hin as [Hin Hn].
      apply not_in_left in Hn. right. now repeat split.
  - intros [Hl|[Hin [Hn ->]]].
    + left. exists (k, p). split; [assumption|]. now apply In_partners.
    + right. exists k. split; [reflexivity|]. apply filter_In. split; [assumption|].
      now apply not_in_left.
Qed.

Lemma join_left_absent {P} (left : list (K * P)) (right : list K) (k : K) :
  ~ In k (map fst left) ->
  filter (fun r => kb (fst r) k)
    (flat_map (join_left_rows K_dec right) left) = [].
Proof.
  intros Hn. apply filter_none. intros r Hr.
  apply in_flat_map in Hr as [l [Hl Hr]]. apply In_partners in Hr. subst r.
  apply keyb_false. intros E. apply Hn. apply in_map_iff. now exists l.
Qed.

Lemma join_left_present {P} (left : list (K * P)) (right : list K) (k : K) :
  NoDup (map fst left) -> In k (map fst left) -> filter (fun k' => kb k' k) right = [k] ->
  exists p,
    filter (fun r => kb (fst r) k)
      (flat_map (join_left_rows K_dec right) left) = [(k, p)].
Proof.
  intros Hnd Hin Hright.
  induction left as [|l rest IH]; [destruct Hin|].
  simpl in Hnd. inversion Hnd as [|? ? Hnl Hnd']; subst.
  simpl flat_map. rewrite filter_app.
  destruct (K_dec (fst l) k) as [E|E].
  - exists (snd l).
    rewrite (join_left_absent rest right k) by now rewrite <- E.
    rewrite app_nil_r.
    assert (Hp : filter (kb (fst l)) right = [k]).
    { rewrite <- Hright. apply filter_ext. intros k'.
      unfold keyb. destruct (K_dec (fst l) k'), (K_dec k' k); congruence. }
    unfold join_left_rows at 1. rewrite Hp. simpl.
    rewrite (proj2 (keyb_true (fst l) k) E).
    destruct l; simpl in *; now subst.
  - destruct Hin as [Hin|Hin]; [contradiction|].
    destruct (IH Hnd' Hin) as [p Hp]. exists p. rewrite Hp.
    rewrite filter_none; [reflexivity|].
    intros r Hr. apply In_partners in Hr. subst r. now apply keyb_false.
Qed.

(** A key that the right table lists once has exactly one row in the join,
    whether or not the left table has it. *)
Lemma join_outer_one_row {P} (nulls : P) (left : list (K * P)) (right : list K)
    (k : K) :
  NoDup (map fst left) -> NoDup right -> In k right ->
  exists p,
    filter (fun r => kb (fst r) k) (join_outer K_dec nulls left right) = [(k, p)].
Proof.
  intros Hl Hr Hin.
  assert (Hright : filter (fun k' => kb k' k) right = [k]).
  { apply filter_only; [assumption|assumption|].
    intros x _. apply keyb_true. }
  unfold join_outer. rewrite filter_app, filter_map_swap, filter_filter. simpl.
  destruct (in_dec K_dec k (map fst left)) as [Hk|Hk].
  - destruct (join_left_present left right k Hl Hk Hright) as [p Hp].
    exists p. rewrite Hp. rewrite filter_none; [reflexivity|].
    intros x _. destruct (kb x k) eqn:E; [|now rewrite andb_false_r].
    apply keyb_true in E. subst x.
    apply andb_false_iff. left. apply not_true_iff_false.
    intros H. now apply not_in_left in H.
  - exists nulls. rewrite (join_left_absent left right k Hk). simpl.
    rewrite (filter_only _ k); [reflexivity|assumption|assumption|].
    intros x _. rewrite andb_true_iff, keyb_true. split.
    + now intros [_ ?].
    + intros ->. split; [now apply not_in_left|reflexivity].
Qed.

Lemma join_outer_keys {P} (nulls : P) (left : list (K * P)) (right : list K) (k : K) :
  In k (map fst (join_outer K_dec nulls left right)) <->
  In k (map fst left) \/ In k right.
Proof.
  rewrite !in_map_iff. split.
  - intros [[k' p] [E H]]. simpl in E. subst k'.
    apply In_join_outer in H as [H|[H _]]; [left|now right].
    exists (k, p). now split.
  - intros [[[k' p] [E H]]|H].
    + simpl in E. subst k'. exists (k, p). split; [reflexivity|].
      apply In_join_outer. now left.
    + destruct (in_dec K_dec k (map fst left)) as [Hk|Hk].
      * apply in_map_iff in Hk as [[k' p] [E Hk]]. simpl in E. subst k'.
        exists (k, p). split; [reflexivity|]. apply In_join_outer. now left.
      * exists (k, nulls). split; [reflexivity|]. apply In_join_outer.
        right. now repeat split.
Qed.

(** *** drop_duplicates *)

Lemma drop_duplicates_from_In {R} (key : R -> K) (df : list R) :
  forall seen r,
    In r (drop_duplicates_from K_dec seen key df) -> In r df /\ ~ In (key r) seen.
Proof.
  induction df as [|a df IH]; intros seen r H; simpl in H; [destruct H|].
  destruct (in_dec K_dec (key a) seen) as [Hs|Hs].
  - apply IH in H as [H1 H2]. split; [now right|assumption].
  - destruct H as [->|H]; [split; [now left|assumption]|].
    apply IH in H as [H1 H2]. split; [now right|].
    intros Hin. apply H2. now right.
Qed.

Lemma drop_duplicates_from_keys {R} (key : R -> K) (df : list R) :
  forall seen k,
    In k (map key df) -> ~ In k seen ->
    In k (map key (drop_duplicates_from K_dec seen key df)).
Proof.
  induction df as [|a df IH]; intros seen k H Hs; simpl in *; [destruct H|].
  destruct (in_dec K_dec (key a) seen) as [Ha|Ha].
  - destruct H as [H|H]; [subst; contradiction|]. now apply IH.
  - simpl. destruct (K_dec (key a) k) as [E|E]; [now left|].
    right. destruct H as [H|H]; [contradiction|].
    apply IH; [assumption|]. intros [H'|H']; [contradiction|contradiction].
Qed.

Lemma drop_duplicates_from_NoDup {R} (key : R -> K) (df : list R) :
  forall seen, NoDup (map key (drop_duplicates_from K_dec seen key df)).
Proof.
  induction df as [|a df IH]; intros seen; simpl; [constructor|].
  destruct (in_dec K_dec (key a) seen) as [Ha|Ha]; [apply IH|].
  simpl. constructor; [|apply IH].
  intros H. apply in_map_iff in H as [r [E H]].
  apply drop_duplicates_from_In in H as [_ H]. apply H. left. congruence.
Qed.

End KeyedFacts.

Section SortFacts.

Import Spark.

Context {P : Type}.

Lemma insert_sorted_perm (x : Z * P) (l : list (Z * P)) :
  Permutation (insert_sorted x l) (x :: l).
Proof.
  induction l as [|y l IH]; simpl; [reflexivity|].
  destruct (fst x <=? fst y); [reflexivity|].
  rewrite IH. apply perm_swap.
Qed.

Lemma sort_perm (l : list (Z * P)) : Permutation (sort l) l.
Proof.
  induction l as [|x l IH]; simpl; [reflexivity|].
  rewrite insert_sorted_perm. now constructor.
Qed.

Lemma In_sort (x : Z * P) (l : list (Z * P)) : In x (sort l) <-> In x l.
Proof.
  split; apply Permutation_in; [apply sort_perm|symmetry; apply sort_perm].
Qed.

Lemma insert_sorted_keys (x : Z * P) (l : list (Z * P)) :
  Sorted Z.le (map fst l) -> Sorted Z.le (map fst (insert_sorted x l)).
Proof.
  induction l as [|y l IH]; intros H; simpl.
  - repeat constructor.
  - destruct (fst x <=? fst y) eqn:E; simpl.
    + constructor; [assumption|]. constructor. lia.
    + simpl in H. inversion H as [|? ? Hs Hh]; subst.
      constructor; [now apply IH|].
      destruct l as [|z l]; simpl.
      * constructor. lia.
      * destruct (fst x <=? fst z); simpl; constructor; [lia|].
        now inversion Hh.
Qed.

Lemma sort_keys_sorted (l : list (Z * P)) :
  StronglySorted Z.le (map fst (sort l)).
Proof.
  apply Sorted_StronglySorted; [exact Z.le_trans|].
  induction l as [|x l IH]; simpl; [constructor|].
  now apply insert_sorted_keys.
Qed.

(** Sorting moves no row in or out of the rows of a key. *)
Lemma filter_sort_one (f : Z * P -> bool) (l : list (Z * P)) (x : Z * P) :
  filter f l = [x] -> filter f (sort l) = [x].
Proof.
  intros H. apply Permutation_length_1_inv.
  rewrite <- H. apply filter_perm. symmetry. apply sort_perm.
Qed.

End SortFacts.

Section CellFacts.

Import Aggregate.

Lemma cell_eqb_eq (a b : Cell) : cell_eqb a b = true <-> a = b.
Proof.
  destruct a as [|x|x|x], b as [|y|y|y]; simpl;
    try (split; [discriminate|discriminate]); try (split; reflexivity).
  - rewrite Z.eqb_eq. split; congruence.
  - rewrite andb_true_iff, Z.eqb_eq, Pos.eqb_eq. destruct x, y; simpl.
    split; [intros [-> ->]; reflexivity|intros H; inversion H; now split].
  - rewrite String.eqb_eq. split; congruence.
Qed.

Lemma has_key_stats_record (keycol : string) (kc v : Cell) (st : Stats) :
  has_key keycol v (stats_record keycol kc st) = cell_eqb kc v.
Proof.
  destruct st as [[m s] n]. unfold has_key. simpl.
  now rewrite String.eqb_refl.
Qed.

Lemma has_key_running_record (y : Z) (r : option Q) (v : Cell) :
  has_key cols.year v (running_record y r) = cell_eqb (CInt y) v.
Proof. reflexivity. Qed.

Lemma cell_eqb_year (y y' : Z) :
  cell_eqb (CInt y') (CInt y) = Spark.keyb Z.eq_dec y' y.
Proof.
  simpl. unfold Spark.keyb. destruct (Z.eq_dec y' y) as [E|E].
  - now apply Z.eqb_eq.
  - now apply Z.eqb_neq.
Qed.

Lemma cell_eqb_area (a : option string) (k : string) :
  cell_eqb (str_cell a) (CStr k) = Spark.keyb option_string_dec a (Some k).
Proof.
  unfold Spark.keyb.
  destruct (option_string_dec a (Some k)) as [E|E].
  - subst a. simpl. apply String.eqb_refl.
  - destruct a as [s|]; simpl; [|reflexivity].
    apply String.eqb_neq. congruence.
Qed.

End CellFacts.

Section StatsFacts.

Import Spark Aggregate.

Variable sqrt : Q -> Q.

Lemma stats_of_nil : stats_of sqrt [] = (None, None, Some 0).
Proof. reflexivity. Qed.

(** Fewer than two values: no standard deviation. *)
Lemma stddev_few (vs : list (option Q)) :
  count vs < 2 -> stddev sqrt vs = None.
Proof.
  unfold count, stddev. intros H.
  destruct (Nat.ltb_spec (List.length (present vs)) 2) as [_|Hge]; [reflexivity|lia].
Qed.

Lemma count_one (vs : list (option Q)) :
  count vs = 1 -> exists v, present vs = [v].
Proof.
  unfold count. intros H.
  destruct (present vs) as [|v [|w l]]; simpl in H; try lia. now exists v.
Qed.

Lemma mean_one (vs : list (option Q)) (v : Q) :
  present vs = [v] -> exists m, mean vs = Some m /\ (m == v)%Q.
Proof.
  intros H. unfold mean. rewrite H. eexists. split; [reflexivity|].
  unfold arithmetic_mean, Qsum. simpl. field.
Qed.

Lemma mean_none (vs : list (option Q)) :
  mean vs = None <-> present vs = [].
Proof.
  unfold mean. destruct (present vs); split; congruence.
Qed.

Context {K : Type}.
Variable K_dec : forall a b : K, {a = b} + {a <> b}.

(** The rows of [.groupby(key).agg(mean, stddev, count).join(right, 'outer')
    .fillna(0, stations)]: every row carries the aggregates of the values of
    its key, those of no value when the key has no data. *)
Lemma chain_stats (key : Row -> K) (c : Row -> option Q) (df : list Row)
    (right : list K) (k : K) (st : Stats) :
  In (k, st)
     (fillna_stations
        (join_outer K_dec null_stats
           (agg (agg_stats sqrt c) (groupby K_dec key df)) right)) ->
  st = stats_of sqrt (map c (filter (fun r => keyb K_dec (key r) k) df)).
Proof.
  unfold fillna_stations. rewrite in_map_iff.
  intros [[k' st'] [E H]]. simpl in E. inversion E; subst. clear E.
  apply In_join_outer in H as [H|[_ [Hn ->]]].
  - apply In_agg_groupby in H as [_ ->]. reflexivity.
  - rewrite agg_groupby_keys in Hn.
    rewrite filter_none; [reflexivity|].
    intros r Hr. apply keyb_false. intros E. apply Hn.
    apply in_map_iff. now exists r.
Qed.

Lemma chain_one_row (key : Row -> K) (c : Row -> option Q) (df : list Row)
    (right : list K) (k : K) :
  NoDup right -> In k right ->
  filter (fun r => keyb K_dec (fst r) k)
    (fillna_stations
       (join_outer K_dec null_stats
          (agg (agg_stats sqrt c) (groupby K_dec key df)) right))
  = [(k, stats_of sqrt (map c (filter (fun r => keyb K_dec (key r) k) df)))].
Proof.
  intros Hnd Hin.
  destruct (join_outer_one_row K_dec null_stats
              (agg (agg_stats sqrt c) (groupby K_dec key df)) right k
              (agg_groupby_NoDup K_dec _ key df) Hnd Hin) as [p Hp].
  assert (Hrow : In (k, fill_stations p)
                    (fillna_stations
                       (join_outer K_dec null_stats
                          (agg (agg_stats sqrt c) (groupby K_dec key df)) right))).
  { unfold fillna_stations. apply in_map_iff. exists (k, p). split; [reflexivity|].
    assert (Hi : In (k, p) [(k, p)]) by now left.
    rewrite <- Hp in Hi. now apply filter_In in Hi. }
  apply chain_stats in Hrow.
  unfold fillna_stations. rewrite filter_map_swap. simpl.
  rewrite Hp. simpl. now rewrite Hrow.
Qed.

Lemma chain_keys (key : Row -> K) (c : Row -> option Q) (df : list Row)
    (right : list K) (k : K) :
  In k (map fst
          (fillna_stations
             (join_outer K_dec null_stats
                (agg (agg_stats sqrt c) (groupby K_dec key df)) right))) <->
  In k (map key df) \/ In k right.
Proof.
  unfold fillna_stations. rewrite map_map. simpl.
  change (map (fun x : K * Stats => fst x)) with (map (@fst K Stats)).
  rewrite join_outer_keys, agg_groupby_keys. reflexivity.
Qed.

End StatsFacts.

(** * Properties of the aggregator *)

Section AggregateFacts.

Import Spark Aggregate.

Variable sqrt : Q -> Q.

Lemma stats_of_present (vs vs' : list (option Q)) :
  present vs = present vs' -> stats_of sqrt vs = stats_of sqrt vs'.
Proof.
  intros H. unfold stats_of, mean, stddev, count. now rewrite H.
Qed.

(** Dropping the rows with a null value changes no non-null value. *)
Lemma present_notnull (v : Row -> option Q) (g : Row -> bool) (l : list Row) :
  present (map v (filter (fun r => g r && isNotNull v r) l))
  = present (map v (filter g l)).
Proof.
  induction l as [|r l IH]; simpl; [reflexivity|].
  unfold isNotNull at 1.
  destruct (g r); simpl; [|assumption].
  destruct (v r) eqn:E; simpl; rewrite ?E; now rewrite IH.
Qed.

Lemma area_is_keyb (a k : string) (r : Row) :
  keyb option_string_dec (col_area a r) (Some k) = area_is a k r.
Proof.
  unfold area_is. rewrite <- cell_eqb_area.
  destruct (col_area a r); reflexivity.
Qed.

Lemma year_keyb (y y' : Z) : keyb Z.eq_dec y' y = (y' =? y).
Proof. rewrite <- cell_eqb_year. reflexivity. Qed.

Lemma withColumn_filter_year (n : string) (e : Row -> option Q)
    (f : Z -> bool) (df : list Row) :
  filter (fun r => f (year r)) (withColumn n e df)
  = withColumn n e (filter (fun r => f (year r)) df).
Proof.
  unfold withColumn. rewrite filter_map_swap. reflexivity.
Qed.

Lemma withColumn_value (n : string) (e : Row -> option Q) (df : list Row) :
  map (col_value n) (withColumn n e df) = map e df.
Proof.
  unfold withColumn. rewrite map_map. apply map_ext. intros r.
  unfold col_value. simpl. now rewrite String.eqb_refl.
Qed.

Lemma withColumn_year (n : string) (e : Row -> option Q) (df : list Row) :
  map year (withColumn n e df) = map year df.
Proof. unfold withColumn. rewrite map_map. reflexivity. Qed.

Lemma In_year_where (sdf : list Row) (a k : string) (y : Z) :
  In y (map year (where_ (area_is a k) sdf)) <-> has_row sdf a k y.
Proof.
  unfold where_, has_row. rewrite in_map_iff. split.
  - intros [r [E H]]. apply filter_In in H as [H1 H2]. now exists r.
  - intros [r [H1 [H2 E]]]. exists r. split; [assumption|].
    apply filter_In. now split.
Qed.

(** *** The values behind a result row *)

Lemma spatial_values (sdf : list Row) (y : Z) (v a k : string) :
  stats_of sqrt
    (map (col_value v)
       (filter (fun r => keyb option_string_dec (col_area a r) (Some k))
          (where_ (isNotNull (col_value v))
             (where_ (fun r => year r =? y)
                (where_ (isNotNull (col_area a)) sdf)))))
  = stats_of sqrt (values_of_area_in_year sdf v a k y).
Proof.
  apply stats_of_present. unfold where_, values_of_area_in_year.
  rewrite !filter_filter.
  rewrite <- (present_notnull (col_value v)
                (fun r => area_is a k r && (year r =? y)) sdf).
  f_equal. f_equal.
  apply filter_ext. intros r. rewrite area_is_keyb.
  unfold area_is, isNotNull.
  destruct (col_area a r) as [s|]; [destruct (String.eqb s k)|];
    destruct (year r =? y), (col_value v r); reflexivity.
Qed.

Lemma temporal_values (sdf : list Row) (v a k : string) (y : Z) :
  map (col_value v)
    (filter (fun r => keyb Z.eq_dec (year r) y) (where_ (area_is a k) sdf))
  = values_of_area_in_year sdf v a k y.
Proof.
  unfold where_, values_of_area_in_year. rewrite filter_filter. f_equal.
  apply filter_ext. intros r. now rewrite year_keyb.
Qed.

Lemma difference_values (sdf : list Row) (a k : string) (y : Z) :
  map (col_value cols.diff)
    (filter (fun r => keyb Z.eq_dec (year r) y)
       (withColumn cols.diff
          (col_sub (col_value cols.temperature) (col_value cols.pivot_temp))
          (where_ (area_is a k) sdf)))
  = differences_in_year sdf a k y.
Proof.
  rewrite (withColumn_filter_year _ _ (fun y' => keyb Z.eq_dec y' y)).
  rewrite withColumn_value. unfold where_, differences_in_year.
  rewrite filter_filter. f_equal.
  apply filter_ext. intros r. now rewrite year_keyb.
Qed.

(** *** Rows of the pandas tables *)

Lemma In_toPandas_stats {K} (keycol : string) (key_cell : K -> Cell)
    (df : list (K * Stats)) (rec : PRow) :
  In rec (toPandas_stats keycol key_cell df) <->
  exists k st, In (k, st) df /\ rec = stats_record keycol (key_cell k) st.
Proof.
  unfold toPandas_stats. rewrite in_map_iff. split.
  - intros [[k st] [E H]]. exists k, st. now split.
  - intros [k [st [H E]]]. exists (k, st). now split.
Qed.

Lemma toPandas_stats_years (df : list (Z * Stats)) :
  map (pd_get cols.year) (toPandas_stats cols.year CInt df)
  = map (fun y => Some (CInt y)) (map fst df).
Proof.
  unfold toPandas_stats. rewrite !map_map. apply map_ext.
  intros [y [[m s] n]]. reflexivity.
Qed.

(** *** The yearly tables: group by year, aggregate, join, fill, sort *)

Section Yearly.

Variable c : Row -> option Q.
Variable df : list Row.
Variable years : list Z.

Local Abbreviation table :=
  (toPandas_stats cols.year CInt
     (sort
        (fillna_stations
           (join_outer Z.eq_dec null_stats
              (agg (agg_stats sqrt c) (groupby Z.eq_dec year df)) years)))).

Local Abbreviation row_of y :=
  (stats_record cols.year (CInt y%Z)
     (stats_of sqrt (map c (filter (fun r => keyb Z.eq_dec (year r) y%Z) df)))).

Lemma yearly_rows (rec : PRow) :
  In rec table ->
  exists y, rec = row_of y /\ (In y (map year df) \/ In y years).
Proof.
  intros H. apply In_toPandas_stats in H as [y [st [H ->]]].
  apply (proj1 (In_sort _ _)) in H. exists y. split.
  - now rewrite (chain_stats sqrt Z.eq_dec year c df years y st H).
  - apply (chain_keys sqrt Z.eq_dec year c df years y).
    apply in_map_iff. now exists (y, st).
Qed.

Lemma yearly_row_of (y : Z) :
  In y (map year df) \/ In y years -> In (row_of y) table.
Proof.
  intros H. apply (chain_keys sqrt Z.eq_dec year c df years y) in H.
  apply in_map_iff in H as [[y' st] [E H]]. simpl in E. subst y'.
  apply In_toPandas_stats. exists y, st.
  split; [now apply (proj2 (In_sort _ _))|].
  now rewrite (chain_stats sqrt Z.eq_dec year c df years y st H).
Qed.

Lemma yearly_one_row (y : Z) :
  NoDup years -> In y years ->
  filter (has_key cols.year (CInt y)) table = [row_of y].
Proof.
  intros Hnd Hin. unfold toPandas_stats. rewrite filter_map_swap.
  erewrite filter_ext.
  2:{ intros r. rewrite has_key_stats_record. apply cell_eqb_year. }
  erewrite filter_sort_one; [|apply chain_one_row; eassumption].
  reflexivity.
Qed.

Lemma yearly_sorted : sorted_by_year table.
Proof.
  eexists. split; [apply toPandas_stats_years|apply sort_keys_sorted].
Qed.

End Yearly.

End AggregateFacts.

Section AggregationFacts.

Import Spark Aggregate.

Variable sqrt : Q -> Q.

(** *** Fields of a result row *)

Lemma stats_record_fields (keycol : string) (kc : Cell) (m s : option Q)
    (n : option Z) :
  keycol = cols.area \/ keycol = cols.year ->
  pd_get cols.mean (stats_record keycol kc (m, s, n)) = Some (float_cell m)
  /\ pd_get cols.stddev (stats_record keycol kc (m, s, n)) = Some (float_cell s)
  /\ pd_get cols.stations (stats_record keycol kc (m, s, n)) = Some (int_cell n).
Proof. intros [->| ->]; repeat split. Qed.

Lemma stats_record_key (keycol : string) (kc : Cell) (st : Stats) :
  pd_get keycol (stats_record keycol kc st) = Some kc.
Proof. destruct st as [[m s] n]. simpl. now rewrite String.eqb_refl. Qed.

Lemma stats_record_empty (keycol : string) (kc : Cell) :
  keycol = cols.area \/ keycol = cols.year ->
  empty_stats (stats_record keycol kc (stats_of sqrt [])).
Proof. intros H. apply (stats_record_fields keycol kc None None (Some 0) H). Qed.

Lemma stats_record_count (keycol : string) (kc : Cell) (vs : list (option Q)) :
  keycol = cols.area \/ keycol = cols.year ->
  pd_get cols.stations (stats_record keycol kc (stats_of sqrt vs))
  = Some (CInt (count vs)).
Proof. intros H. apply (stats_record_fields keycol kc _ _ (Some (count vs)) H). Qed.

Lemma stats_record_stddev_null (keycol : string) (kc : Cell)
    (vs : list (option Q)) (n : Z) :
  keycol = cols.area \/ keycol = cols.year ->
  pd_get cols.stations (stats_record keycol kc (stats_of sqrt vs)) = Some (CInt n) ->
  n < 2 ->
  pd_get cols.stddev (stats_record keycol kc (stats_of sqrt vs)) = Some NA
  /\ (n = 1 ->
      exists m, pd_get cols.mean (stats_record keycol kc (stats_of sqrt vs))
                = Some (CFloat m)).
Proof.
  intros Hk Hn Hlt. rewrite (stats_record_count _ _ _ Hk) in Hn.
  injection Hn as Hc.
  destruct (stats_record_fields keycol kc (mean vs) (stddev sqrt vs)
              (Some (count vs)) Hk) as [Hm [Hs _]].
  unfold stats_of. rewrite Hm, Hs. split.
  - rewrite stddev_few by lia. reflexivity.
  - intros Hn. rewrite Hn in Hc. destruct (count_one vs Hc) as [x Hx].
    destruct (mean_one vs x Hx) as [m [E _]]. rewrite E. now exists m.
Qed.

(** *** Keys without data *)

Lemma no_area_no_values (sdf : list Row) (v a k : string) (y : Z) :
  (forall r, In r sdf -> col_area a r <> Some k) ->
  values_of_area_in_year sdf v a k y = [].
Proof.
  intros H. unfold values_of_area_in_year. rewrite filter_none; [reflexivity|].
  intros r Hr. specialize (H r Hr). unfold area_is.
  destruct (col_area a r) as [s|]; [|reflexivity].
  destruct (String.eqb_spec s k); [congruence|reflexivity].
Qed.

Lemma no_year_no_values (sdf : list Row) (v a k : string) (y : Z) :
  (forall r, In r sdf -> year r <> y) ->
  values_of_area_in_year sdf v a k y = [].
Proof.
  intros H. unfold values_of_area_in_year. rewrite filter_none; [reflexivity|].
  intros r Hr. specialize (H r Hr). apply andb_false_iff. right.
  now apply Z.eqb_neq.
Qed.

Lemma no_year_no_differences (sdf : list Row) (a k : string) (y : Z) :
  (forall r, In r sdf -> year r <> y) ->
  differences_in_year sdf a k y = [].
Proof.
  intros H. unfold differences_in_year. rewrite filter_none; [reflexivity|].
  intros r Hr. specialize (H r Hr). apply andb_false_iff. right.
  now apply Z.eqb_neq.
Qed.

(** *** Temporal aggregation *)

Lemma temporarly_rows (sdf : list Row) (v area a : string) (years : list Z)
    (rec : PRow) :
  In rec (aggregate_temporarly sqrt sdf v area a years) ->
  exists y,
    rec = stats_record cols.year (CInt y)
            (stats_of sqrt (values_of_area_in_year sdf v a area y))
    /\ (has_row sdf a area y \/ In y years).
Proof.
  intros H. apply yearly_rows in H as [y [-> H]]. exists y.
  rewrite temporal_values, In_year_where in *. now split.
Qed.

Lemma temporarly_row_of (sdf : list Row) (v area a : string) (years : list Z)
    (y : Z) :
  has_row sdf a area y \/ In y years ->
  In (stats_record cols.year (CInt y)
        (stats_of sqrt (values_of_area_in_year sdf v a area y)))
     (aggregate_temporarly sqrt sdf v area a years).
Proof.
  intros H. rewrite <- temporal_values. apply yearly_row_of.
  now rewrite In_year_where.
Qed.

Lemma temporarly_one_row (sdf : list Row) (v area a : string) (years : list Z)
    (y : Z) :
  NoDup years -> In y years ->
  filter (has_key cols.year (CInt y)) (aggregate_temporarly sqrt sdf v area a years)
  = [stats_record cols.year (CInt y)
       (stats_of sqrt (values_of_area_in_year sdf v a area y))].
Proof.
  intros Hnd Hin. rewrite <- temporal_values. now apply yearly_one_row.
Qed.

(** *** Difference aggregation *)

Lemma differences_rows (sdf : list Row) (area a : string) (years : list Z)
    (rec : PRow) :
  In rec (aggregate_differences sqrt sdf area a years) ->
  exists y,
    rec = stats_record cols.year (CInt y)
            (stats_of sqrt (differences_in_year sdf a area y))
    /\ (has_row sdf a area y \/ In y years).
Proof.
  intros H. apply yearly_rows in H as [y [-> H]]. exists y.
  rewrite difference_values, withColumn_year, In_year_where in *. now split.
Qed.

Lemma differences_row_of (sdf : list Row) (area a : string) (years : list Z)
    (y : Z) :
  has_row sdf a area y \/ In y years ->
  In (stats_record cols.year (CInt y)
        (stats_of sqrt (differences_in_year sdf a area y)))
     (aggregate_differences sqrt sdf area a years).
Proof.
  intros H. rewrite <- difference_values. apply yearly_row_of.
  now rewrite withColumn_year, In_year_where.
Qed.

Lemma differences_one_row (sdf : list Row) (area a : string) (years : list Z)
    (y : Z) :
  NoDup years -> In y years ->
  filter (has_key cols.year (CInt y)) (aggregate_differences sqrt sdf area a years)
  = [stats_record cols.year (CInt y)
       (stats_of sqrt (differences_in_year sdf a area y))].
Proof.
  intros Hnd Hin. rewrite <- difference_values. now apply yearly_one_row.
Qed.

(** *** Spatial aggregation *)

Lemma spatial_rows (sdf : list Row) (y : Z) (v a : string) (full : list string)
    (rec : PRow) :
  In rec (aggregate_spatially sqrt sdf y v a full) ->
  exists k,
    rec = stats_record cols.area (CStr k)
            (stats_of sqrt (values_of_area_in_year sdf v a k y)).
Proof.
  intros H. apply In_toPandas_stats in H as [key [st [H ->]]].
  assert (Hk : exists k, key = Some k).
  { assert (Hin : In key (map fst
       (fillna_stations
          (join_outer option_string_dec null_stats
             (agg (agg_stats sqrt (col_value v))
                (groupby option_string_dec (col_area a)
                   (where_ (isNotNull (col_value v))
                      (where_ (fun r => year r =? y)
                         (where_ (isNotNull (col_area a)) sdf)))))
             (map Some full))))).
    { apply in_map_iff. now exists (key, st). }
    apply chain_keys in Hin as [Hin|Hin].
    - apply in_map_iff in Hin as [r [E Hr]]. unfold where_ in Hr.
      apply filter_In in Hr as [Hr _]. apply filter_In in Hr as [Hr _].
      apply filter_In in Hr as [_ Hr]. unfold isNotNull in Hr. rewrite E in Hr.
      destruct key as [k|]; [now exists k|discriminate].
    - apply in_map_iff in Hin as [k [E _]]. now exists k. }
  destruct Hk as [k ->]. exists k. simpl.
  apply chain_stats in H. rewrite H. now rewrite spatial_values.
Qed.

Lemma spatial_one_row (sdf : list Row) (y : Z) (v a : string)
    (full : list string) (k : string) :
  NoDup full -> In k full ->
  filter (has_key cols.area (CStr k)) (aggregate_spatially sqrt sdf y v a full)
  = [stats_record cols.area (CStr k)
       (stats_of sqrt (values_of_area_in_year sdf v a k y))].
Proof.
  intros Hnd Hin. unfold aggregate_spatially, toPandas_stats.
  rewrite filter_map_swap.
  erewrite filter_ext.
  2:{ intros r. rewrite has_key_stats_record. apply cell_eqb_area. }
  rewrite chain_one_row.
  - cbn [map fst snd]. now rewrite spatial_values.
  - apply Finite.Injective_map_NoDup; [|assumption].
    intros x x' E. now inversion E.
  - now apply in_map.
Qed.

Lemma one_row_In {A} (f : A -> bool) (l : list A) (x : A) :
  filter f l = [x] -> In x l.
Proof.
  intros H. assert (Hi : In x (filter f l)) by (rewrite H; now left).
  now apply filter_In in Hi.
Qed.

End AggregationFacts.

Import Spark Aggregate.

(** C1: for the spatial, temporal and difference aggregation, every key of
    the full key domain (a list without repetition of the area names, or of
    the years) has exactly one row in the output table, and when no row of
    the raw measurement data has that key, this row has a null mean, a null
    stddev and the station count 0. *)
Theorem aggregation_one_row_per_domain_key :
  (forall sqrt sdf y v a full k,
      NoDup full -> In k full ->
      exists rec,
        filter (has_key cols.area (CStr k)) (aggregate_spatially sqrt sdf y v a full)
        = [rec]
        /\ ((forall r, In r sdf -> col_area a r <> Some k) -> empty_stats rec))
  /\ (forall sqrt sdf v area a years y,
         NoDup years -> In y years ->
         exists rec,
           filter (has_key cols.year (CInt y))
             (aggregate_temporarly sqrt sdf v area a years) = [rec]
           /\ ((forall r, In r sdf -> year r <> y) -> empty_stats rec))
  /\ (forall sqrt sdf area a years y,
         NoDup years -> In y years ->
         exists rec,
           filter (has_key cols.year (CInt y))
             (aggregate_differences sqrt sdf area a years) = [rec]
           /\ ((forall r, In r sdf -> year r <> y) -> empty_stats rec)).
Proof.
  split; [|split].
  - intros sqrt sdf y v a full k Hnd Hin. eexists. split.
    + now apply spatial_one_row.
    + intros Habs. rewrite (no_area_no_values sdf v a k y Habs).
      apply stats_record_empty. now left.
  - intros sqrt sdf v area a years y Hnd Hin. eexists. split.
    + now apply temporarly_one_row.
    + intros Habs. rewrite (no_year_no_values sdf v a area y Habs).
      apply stats_record_empty. now right.
  - intros sqrt sdf area a years y Hnd Hin. eexists. split.
    + now apply differences_one_row.
    + intros Habs. rewrite (no_year_no_differences sdf a area y Habs).
      apply stats_record_empty. now right.
Qed.

Lemma aggregation_one_row_per_domain_key_witness :
  NoDup [2000; 2001] /\ In 2001 [2000; 2001]
  /\ (forall r, In r two_in_2000 -> year r <> 2001)
  /\ exists rec,
      filter (has_key cols.year (CInt 2001))
        (aggregate_temporarly sqrt_newton two_in_2000 cols.temperature "A" "state"
           [2000; 2001]) = [rec]
      /\ empty_stats rec.
Proof.
  assert (Hnd : NoDup [2000; 2001]).
  { constructor; [intros [H|[]]; discriminate H|].
    constructor; [intros []|constructor]. }
  assert (Hin : In 2001 [2000; 2001]) by (right; now left).
  assert (Habs : forall r, In r two_in_2000 -> year r <> 2001).
  { intros r [<-|[<-|[]]]; discriminate. }
  repeat (split; [assumption|]).
  destruct (proj1 (proj2 aggregation_one_row_per_domain_key)
              sqrt_newton two_in_2000 cols.temperature "A" "state"
              [2000; 2001] 2001 Hnd Hin) as [rec [H1 H2]].
  exists rec. split; [exact H1|exact (H2 Habs)].
Defined.

(** C2: in the output of every aggregation that reports a stddev (spatial,
    temporal, difference), a row whose station count is below 2 has a null
    stddev, whatever the values are; a row with exactly one observation has
    its mean and still a null stddev, never 0. *)
Theorem stddev_null_for_fewer_than_two :
  forall sqrt sdf y v area a full years,
    stddev_null_below_two (aggregate_spatially sqrt sdf y v a full)
    /\ stddev_null_below_two (aggregate_temporarly sqrt sdf v area a years)
    /\ stddev_null_below_two (aggregate_differences sqrt sdf area a years).
Proof.
  intros sqrt sdf y v area a full years. unfold stddev_null_below_two.
  split; [|split]; intros rec n Hin Hn Hlt.
  - apply spatial_rows in Hin as [k ->].
    apply (stats_record_stddev_null sqrt cols.area _ _ n); auto.
  - apply temporarly_rows in Hin as [y' [-> _]].
    apply (stats_record_stddev_null sqrt cols.year _ _ n); auto.
  - apply differences_rows in Hin as [y' [-> _]].
    apply (stats_record_stddev_null sqrt cols.year _ _ n); auto.
Qed.

Lemma stddev_null_for_fewer_than_two_witness :
  let out := aggregate_temporarly sqrt_newton one_in_2000 cols.temperature
               "A" "state" [2000; 2001] in
  let rec := [(cols.year, CInt 2000); (cols.mean, CFloat 10);
              (cols.stddev, NA); (cols.stations, CInt 1)] in
  In rec out
  /\ pd_get cols.stations rec = Some (CInt 1)
  /\ 1 < 2
  /\ pd_get cols.stddev rec = Some NA
  /\ (1 = 1 -> exists m, pd_get cols.mean rec = Some (CFloat m)).
Proof.
  intros out rec.
  assert (Hin : In rec out) by (vm_compute; now left).
  assert (Hn : pd_get cols.stations rec = Some (CInt 1)) by reflexivity.
  assert (Hlt : 1 < 2) by lia.
  repeat (split; [assumption|]).
  exact (proj1 (proj2 (stddev_null_for_fewer_than_two sqrt_newton one_in_2000
                         2000 cols.temperature "A" "state" [] [2000; 2001]))
           rec 1 Hin Hn Hlt).
Defined.

(** The column that the code computes with [col(temperature) -
    col(pivot_temp)] holds the differences the specification speaks of. *)
Lemma differences_are_observed_minus_pivot (sdf : list Row) (a k : string) (y : Z) :
  differences_in_year sdf a k y = observed_minus_pivot_in_year sdf a k y.
Proof.
  unfold differences_in_year, observed_minus_pivot_in_year.
  apply map_ext. intros r.
  unfold col_sub, col_value, observed_minus_pivot.
  destruct (value_cols r cols.temperature), (value_cols r cols.pivot_temp);
    reflexivity.
Qed.

(** C9: the difference aggregation takes the rows of the fixed area, forms
    on each the difference of the observed temperature and the row's pivot
    temperature, and reports per year the mean, the stddev and the count of
    these differences: its rows are exactly one shape per year, for the
    years of the area's rows and the years of the full year domain (the
    outer join), in ascending order of the year.  With the temperatures 10
    and 20 in the year 2000, of stations with the pivots 8 and 21, the
    differences are 2 and -1: the year has the mean 1/2, as stddev the root
    of 9/2 and the count 2. *)
Theorem aggregate_differences_by_year :
  forall sqrt,
    (forall sdf area a years,
        let out := aggregate_differences sqrt sdf area a years in
        sorted_by_year out
        /\ (forall rec,
               In rec out <->
               exists y,
                 (has_row sdf a area y \/ In y years)
                 /\ rec = [(cols.year, CInt y);
                           (cols.mean,
                            float_cell (mean (observed_minus_pivot_in_year sdf a area y)));
                           (cols.stddev,
                            float_cell
                              (stddev sqrt (observed_minus_pivot_in_year sdf a area y)));
                           (cols.stations,
                            CInt (count (observed_minus_pivot_in_year sdf a area y)))]))
    /\ observed_minus_pivot_in_year two_in_2000 "state" "A" 2000
       = [Some (10 - 8)%Q; Some (20 - 21)%Q]
    /\ exists m v,
        aggregate_differences sqrt two_in_2000 "A" "state" [2000; 2001]
        = [[(cols.year, CInt 2000); (cols.mean, CFloat m);
            (cols.stddev, CFloat (sqrt v)); (cols.stations, CInt 2)];
           [(cols.year, CInt 2001); (cols.mean, NA);
            (cols.stddev, NA); (cols.stations, CInt 0)]]
        /\ (m == 1 # 2)%Q /\ (v == 9 # 2)%Q.
Proof.
  intros sqrt. split; [|split].
  - intros sdf area a years out. split.
    + apply yearly_sorted.
    + intros rec. split.
      * intros H. apply differences_rows in H as [y [-> H]]. exists y.
        rewrite (differences_are_observed_minus_pivot sdf a area y). now split.
      * intros [y [H ->]].
        rewrite <- (differences_are_observed_minus_pivot sdf a area y).
        now apply (differences_row_of sqrt sdf area a years y).
  - reflexivity.
  - eexists. eexists. split; [vm_compute; reflexivity|]. split; reflexivity.
Qed.

(** The example of the two stations, read off the rows of the table. *)
Lemma aggregate_differences_by_year_witness :
  (has_row two_in_2000 "state" "A" 2000 \/ In 2000 [2000; 2001])
  /\ In [(cols.year, CInt 2000);
         (cols.mean,
          float_cell (mean [Some (10 - 8)%Q; Some (20 - 21)%Q]));
         (cols.stddev,
          float_cell (stddev sqrt_newton [Some (10 - 8)%Q; Some (20 - 21)%Q]));
         (cols.stations, CInt 2)]
        (aggregate_differences sqrt_newton two_in_2000 "A" "state" [2000; 2001]).
Proof.
  assert (H : has_row two_in_2000 "state" "A" 2000 \/ In 2000 [2000; 2001])
    by (right; now left).
  split; [exact H|].
  apply (proj2 (proj1 (aggregate_differences_by_year sqrt_newton)
                  two_in_2000 "A" "state" [2000; 2001]) _).
  exists 2000. split; [exact H|reflexivity].
Defined.

Section RunningMeanFacts.

Variables (sdf : list Row) (v area a : string).

Local Abbreviation restricted := (where_ (area_is a area) sdf).

Local Abbreviation with_running :=
  (withColumn cols.running
     (fun r => mean (map (col_value v)
                       (rangeBetween year (-6) currentRow restricted r)))
     restricted).

Local Abbreviation running_table :=
  (map (fun r => (year r, col_value cols.running r))
     (drop_duplicates Z.eq_dec year with_running)).

(** The frame of a row holds the rows of the area within the six years
    before its year and that year. *)
Lemma window_values (r : Row) :
  map (col_value v) (rangeBetween year (-6) currentRow restricted r)
  = values_in_window sdf v a area (year r).
Proof.
  unfold rangeBetween, where_, values_in_window, currentRow.
  rewrite filter_filter. f_equal. apply filter_ext. intros r'.
  rewrite Z.add_0_r. reflexivity.
Qed.

Lemma with_running_In (r' : Row) :
  In r' with_running ->
  has_row sdf a area (year r')
  /\ col_value cols.running r' = mean (values_in_window sdf v a area (year r')).
Proof.
  unfold withColumn. rewrite in_map_iff. intros [r [<- Hr]].
  simpl. split.
  - exists r. unfold where_ in Hr. apply filter_In in Hr as [H1 H2].
    now repeat split.
  - unfold col_value at 1. simpl. now rewrite window_values.
Qed.

Lemma running_table_In (y : Z) (p : option Q) :
  In (y, p) running_table <->
  has_row sdf a area y /\ p = mean (values_in_window sdf v a area y).
Proof.
  rewrite in_map_iff. split.
  - intros [r' [E H]]. inversion E; subst. clear E.
    apply drop_duplicates_from_In in H as [H _].
    now apply with_running_In.
  - intros [H ->]. apply In_year_where in H.
    rewrite <- (withColumn_year cols.running
                  (fun r => mean (map (col_value v)
                                    (rangeBetween year (-6) currentRow restricted r))))
      in H.
    apply (drop_duplicates_from_keys Z.eq_dec year _ [] y) in H; [|intros []].
    apply in_map_iff in H as [r' [E H]]. exists r'. split; [|exact H].
    apply drop_duplicates_from_In in H as [H _].
    apply with_running_In in H as [_ H]. now rewrite H, E.
Qed.

Lemma running_table_keys (y : Z) :
  In y (map fst running_table) <-> has_row sdf a area y.
Proof.
  rewrite in_map_iff. split.
  - intros [[y' p] [E H]]. simpl in E. subst y'.
    now apply running_table_In in H.
  - intros H. exists (y, mean (values_in_window sdf v a area y)).
    split; [reflexivity|]. now apply running_table_In.
Qed.

Lemma running_table_NoDup : NoDup (map fst running_table).
Proof.
  rewrite map_map. simpl. apply drop_duplicates_from_NoDup.
Qed.

Lemma running_rows (years : list Z) (rec : PRow) :
  In rec (aggregate_running_mean sdf v area a years) <->
  exists y,
    (has_row sdf a area y
     /\ rec = running_record y (mean (values_in_window sdf v a area y)))
    \/ (In y years /\ ~ has_row sdf a area y /\ rec = running_record y None).
Proof.
  unfold aggregate_running_mean, toPandas_running. cbv zeta.
  rewrite in_map_iff. split.
  - intros [[y p] [<- H]]. apply (proj1 (In_sort _ _)) in H.
    apply In_join_outer in H as [H|[H1 [H2 ->]]]; exists y.
    + left. apply running_table_In in H as [H ->]. now split.
    + right. rewrite running_table_keys in H2. now repeat split.
  - intros [y [[H ->]|[H1 [H2 ->]]]].
    + exists (y, mean (values_in_window sdf v a area y)). split; [reflexivity|].
      apply (proj2 (In_sort _ _)). apply In_join_outer. left.
      now apply running_table_In.
    + exists (y, None). split; [reflexivity|].
      apply (proj2 (In_sort _ _)). apply In_join_outer. right.
      rewrite running_table_keys. now repeat split.
Qed.

Lemma running_one_row (years : list Z) (y : Z) :
  NoDup years -> In y years ->
  exists rec,
    filter (has_key cols.year (CInt y)) (aggregate_running_mean sdf v area a years)
    = [rec].
Proof.
  intros Hnd Hin.
  destruct (join_outer_one_row Z.eq_dec None running_table years y
              running_table_NoDup Hnd Hin) as [p Hp].
  exists (running_record y p).
  unfold aggregate_running_mean, toPandas_running. cbv zeta.
  rewrite filter_map_swap.
  erewrite filter_ext.
  2:{ intros r. rewrite has_key_running_record. apply cell_eqb_year. }
  erewrite filter_sort_one; [|exact Hp]. reflexivity.
Qed.

Lemma running_sorted (years : list Z) :
  sorted_by_year (aggregate_running_mean sdf v area a years).
Proof.
  unfold aggregate_running_mean, toPandas_running. cbv zeta.
  exists (map fst (sort (join_outer Z.eq_dec None running_table years))).
  split; [|apply sort_keys_sorted].
  rewrite !map_map. reflexivity.
Qed.

End RunningMeanFacts.

Section PivotFacts.

Lemma In_get_pivotal_mean (df : list Row) (start_year end_year : Z)
    (s : string) (p : option Q) :
  In (s, p) (get_pivotal_mean df start_year end_year) <->
  (exists r, In r df /\ sdo_id r = s /\ start_year <= year r <= end_year)
  /\ p = mean (station_temperatures df s start_year end_year).
Proof.
  unfold get_pivotal_mean. rewrite In_agg_groupby.
  assert (E : map (col_value cols.temperature)
                (filter (fun r => keyb string_dec (sdo_id r) s)
                   (where_ (fun r => year r <=? end_year)
                      (where_ (fun r => start_year <=? year r) df)))
              = station_temperatures df s start_year end_year).
  { unfold where_, station_temperatures. rewrite !filter_filter. f_equal.
    apply filter_ext. intros r. unfold keyb.
    destruct (string_dec (sdo_id r) s) as [H|H].
    - apply String.eqb_eq in H. rewrite H.
      destruct (start_year <=? year r), (year r <=? end_year); reflexivity.
    - apply String.eqb_neq in H. rewrite H.
      destruct (start_year <=? year r), (year r <=? end_year); reflexivity. }
  rewrite E. unfold where_. rewrite in_map_iff.
  split; intros [H ->]; (split; [|reflexivity]).
  - destruct H as [r [Hs Hr]]. apply filter_In in Hr as [Hr H2].
    apply filter_In in Hr as [Hr H1]. exists r. repeat split; try assumption; lia.
  - destruct H as [r [Hr [Hs [H1 H2]]]]. exists r. split; [assumption|].
    apply filter_In. split; [|lia]. apply filter_In. split; [assumption|lia].
Qed.

Lemma present_temperatures (l : list Row) :
  present (map (col_value cols.temperature) l)
  = flat_map (fun r => match value_cols r cols.temperature with
                       | Some t => [t]
                       | None => []
                       end) l.
Proof.
  induction l as [|r l IH]; [reflexivity|].
  cbn [map present flat_map]. unfold col_value at 1.
  destruct (value_cols r cols.temperature); cbn [present app]; now rewrite IH.
Qed.

Lemma station_observations (df : list Row) (s : string) (start_year end_year : Z) :
  present (station_temperatures df s start_year end_year)
  = observations df s start_year end_year.
Proof. apply present_temperatures. Qed.

(** The engine's mean is the sum of the non-null values divided by their
    number. *)
Lemma mean_pivot_of (vs : list (option Q)) : mean vs = pivot_of (present vs).
Proof. unfold mean, pivot_of. destruct (present vs); reflexivity. Qed.

Lemma In_get_pivotal_mean_observations (df : list Row) (start_year end_year : Z)
    (s : string) (p : option Q) :
  In (s, p) (get_pivotal_mean df start_year end_year) <->
  (exists r, In r df /\ sdo_id r = s /\ start_year <= year r <= end_year)
  /\ p = pivot_of (observations df s start_year end_year).
Proof.
  rewrite In_get_pivotal_mean, mean_pivot_of, station_observations. reflexivity.
Qed.

Lemma observation_row (df : list Row) (s : string) (start_year end_year : Z)
    (t : Q) :
  In t (observations df s start_year end_year) ->
  exists r, In r df /\ sdo_id r = s /\ start_year <= year r <= end_year.
Proof.
  unfold observations. intros H. apply in_flat_map in H as [r [Hr _]].
  apply filter_In in Hr as [Hr Hf].
  apply andb_true_iff in Hf as [Hs Hy]. apply andb_true_iff in Hy as [H1 H2].
  apply String.eqb_eq in Hs. exists r. repeat split; try assumption; lia.
Qed.

Lemma sum_by_number_one (t : Q) : (sum_by_number [t] == t)%Q.
Proof. unfold sum_by_number. simpl. field. Qed.

End PivotFacts.

Section SpatialRowOf.

Variable sqrt : Q -> Q.

Lemma spatial_row_of (sdf : list Row) (y : Z) (v a : string)
    (full : list string) (k : string) :
  In k full ->
  In (stats_record cols.area (CStr k)
        (stats_of sqrt (values_of_area_in_year sdf v a k y)))
     (aggregate_spatially sqrt sdf y v a full).
Proof.
  intros Hin.
  assert (Hk : In (Some k) (map fst
       (fillna_stations
          (join_outer option_string_dec null_stats
             (agg (agg_stats sqrt (col_value v))
                (groupby option_string_dec (col_area a)
                   (where_ (isNotNull (col_value v))
                      (where_ (fun r => year r =? y)
                         (where_ (isNotNull (col_area a)) sdf)))))
             (map Some full))))).
  { apply chain_keys. right. now apply in_map. }
  apply in_map_iff in Hk as [[key st] [E H]]. simpl in E. subst key.
  apply In_toPandas_stats. exists (Some k), st. split; [assumption|].
  apply chain_stats in H. rewrite H. now rewrite spatial_values.
Qed.

(** A row of a stats table found under a key is the row of that key. *)
Lemma stats_record_by_key (keycol : string) (kc kc' : Cell) (st : Stats)
    (rec : PRow) :
  rec = stats_record keycol kc st -> pd_get keycol rec = Some kc' -> kc = kc'.
Proof.
  intros -> H. rewrite stats_record_key in H. congruence.
Qed.

End SpatialRowOf.

Section RowsOfKey.

Variable sqrt : Q -> Q.

Lemma spatial_rows_of_key (sdf : list Row) (y : Z) (v a : string)
    (full : list string) (k : string) (rec : PRow) :
  In rec (aggregate_spatially sqrt sdf y v a full) ->
  pd_get cols.area rec = Some (CStr k) ->
  rec = stats_record cols.area (CStr k)
          (stats_of sqrt (values_of_area_in_year sdf v a k y)).
Proof.
  intros Hin Hk. apply spatial_rows in Hin as [k' E].
  pose proof (stats_record_by_key _ _ _ _ _ E Hk) as Hc.
  injection Hc as ->. exact E.
Qed.

Lemma temporarly_rows_of_key (sdf : list Row) (v area a : string)
    (years : list Z) (y : Z) (rec : PRow) :
  In rec (aggregate_temporarly sqrt sdf v area a years) ->
  pd_get cols.year rec = Some (CInt y) ->
  rec = stats_record cols.year (CInt y)
          (stats_of sqrt (values_of_area_in_year sdf v a area y)).
Proof.
  intros Hin Hk. apply temporarly_rows in Hin as [y' [E _]].
  pose proof (stats_record_by_key _ _ _ _ _ E Hk) as Hc.
  injection Hc as ->. exact E.
Qed.

Lemma differences_rows_of_key (sdf : list Row) (area a : string)
    (years : list Z) (y : Z) (rec : PRow) :
  In rec (aggregate_differences sqrt sdf area a years) ->
  pd_get cols.year rec = Some (CInt y) ->
  rec = stats_record cols.year (CInt y)
          (stats_of sqrt (differences_in_year sdf a area y)).
Proof.
  intros Hin Hk. apply differences_rows in Hin as [y' [E _]].
  pose proof (stats_record_by_key _ _ _ _ _ E Hk) as Hc.
  injection Hc as ->. exact E.
Qed.

End RowsOfKey.

Lemma no_year_no_row (sdf : list Row) (a k : string) (y : Z) :
  (forall r, In r sdf -> year r <> y) -> ~ has_row sdf a k y.
Proof. intros H [r [Hr [_ E]]]. exact (H r Hr E). Qed.

Lemma has_row_dec (sdf : list Row) (a k : string) (y : Z) :
  has_row sdf a k y \/ ~ has_row sdf a k y.
Proof.
  destruct (in_dec Z.eq_dec y (map year (where_ (area_is a k) sdf))) as [H|H];
    rewrite In_year_where in H; [now left|now right].
Qed.

(** C3, as stated: a year of the output need not carry the mean of the
    entries of its window.  With the single value 10 in the year 2000 and
    the year domain 2000, 2001, the window of 2001 holds that entry, of
    mean 10, and the output row of 2001 has a null running mean. *)
Lemma running_mean_null_despite_window_entries :
  let out := aggregate_running_mean one_in_2000 cols.temperature "A" "state"
               [2000; 2001] in
  out = [[(cols.year, CInt 2000); (cols.running, CFloat 10)];
         [(cols.year, CInt 2001); (cols.running, NA)]]
  /\ mean (values_in_window one_in_2000 cols.temperature "state" "A" 2001)
     = Some 10%Q
  /\ ~ (forall rec y,
           In rec out -> pd_get cols.year rec = Some (CInt y) ->
           pd_get cols.running rec
           = Some (float_cell
                     (mean (values_in_window one_in_2000 cols.temperature
                              "state" "A" y)))).
Proof.
  intros out.
  assert (E : out = [[(cols.year, CInt 2000); (cols.running, CFloat 10)];
                     [(cols.year, CInt 2001); (cols.running, NA)]])
    by (vm_compute; reflexivity).
  split; [exact E|]. split; [vm_compute; reflexivity|].
  intros H.
  specialize (H [(cols.year, CInt 2001); (cols.running, NA)] 2001).
  rewrite E in H. specialize (H (or_intror (or_introl eq_refl)) eq_refl).
  vm_compute in H. discriminate H.
Qed.

(** C3: the running-mean aggregation, restricted to the given area, has a
    row for every year in which the area has a row, carrying the mean of
    the non-null values of the area whose year lies in the inclusive range
    from six years before to that year (a range on the year value, however
    many years of it have data), and a row with a null running mean for
    every year of the full year domain in which the area has no row;
    these are all its rows.  In particular a year of the domain with no
    entry in its window has a null running mean.  A year listed once in
    the domain has exactly one row, and the rows are in ascending order
    of the year. *)
Theorem aggregate_running_mean_window :
  forall sdf v area a years,
    let out := aggregate_running_mean sdf v area a years in
    (forall rec,
        In rec out <->
        exists y,
          (has_row sdf a area y
           /\ rec = [(cols.year, CInt y);
                     (cols.running,
                      float_cell (mean (values_in_window sdf v a area y)))])
          \/ (In y years /\ ~ has_row sdf a area y
              /\ rec = [(cols.year, CInt y); (cols.running, NA)]))
    /\ (forall y,
           In y years -> present (values_in_window sdf v a area y) = [] ->
           In [(cols.year, CInt y); (cols.running, NA)] out)
    /\ (forall y,
           NoDup years -> In y years ->
           exists rec, filter (has_key cols.year (CInt y)) out = [rec])
    /\ sorted_by_year out.
Proof.
  intros sdf v area a years out. repeat apply conj.
  - intros rec. apply running_rows.
  - intros y Hin Hw. apply running_rows. exists y.
    destruct (has_row_dec sdf a area y) as [H|H].
    + left. split; [assumption|].
      apply mean_none in Hw. rewrite Hw. reflexivity.
    + right. now repeat split.
  - intros y. apply running_one_row.
  - apply running_sorted.
Qed.

Lemma aggregate_running_mean_window_witness :
  In 2001 [2000; 2001]
  /\ present (values_in_window one_in_2000 cols.temperature "state" "B" 2001) = []
  /\ In [(cols.year, CInt 2001); (cols.running, NA)]
       (aggregate_running_mean one_in_2000 cols.temperature "B" "state" [2000; 2001]).
Proof.
  assert (Hin : In 2001 [2000; 2001]) by (right; now left).
  assert (Hw : present (values_in_window one_in_2000 cols.temperature
                          "state" "B" 2001) = []) by reflexivity.
  repeat (split; [assumption|]).
  exact (proj1 (proj2 (aggregate_running_mean_window one_in_2000
                         cols.temperature "B" "state" [2000; 2001]))
           2001 Hin Hw).
Defined.

(** C8, as stated: a station with zero observations within the interval
    can appear in the result.  The station s2 has one row in the interval,
    without a temperature: it has no observation there, and it is in the
    result, with a null pivot. *)
Lemma pivot_row_without_observation :
  let df := [measurement "s1" 2000 (Some 10%Q) None;
             measurement "s2" 2000 None None] in
  observations df "s2" 1990 2010 = []
  /\ In ("s2", None) (get_pivotal_mean df 1990 2010)
  /\ ~ (forall s,
           observations df s 1990 2010 = [] ->
           ~ In s (map fst (get_pivotal_mean df 1990 2010))).
Proof.
  intros df.
  assert (Hin : In ("s2", None) (get_pivotal_mean df 1990 2010)).
  { apply In_get_pivotal_mean_observations. split; [|reflexivity].
    exists (measurement "s2" 2000 None None).
    split; [right; now left|]. split; [reflexivity|]. simpl. lia. }
  split; [reflexivity|]. split; [exact Hin|].
  intros H. apply (H "s2"); [reflexivity|].
  apply in_map_iff. now exists ("s2", None).
Qed.

(** C8: the pivot computation has one row per station with a row in the
    inclusive year interval, holding the mean value of the station's
    observations of that interval: their sum divided by their number, null
    when there is none.  A station without a row in the interval is not in
    the result; a station with rows there that all lack a temperature is in
    the result with a null pivot; and a station with exactly one observation
    there gets that observed value as its pivot. *)
Theorem get_pivotal_mean_per_station :
  (forall df start_year end_year s p,
      In (s, p) (get_pivotal_mean df start_year end_year) <->
      (exists r, In r df /\ sdo_id r = s /\ start_year <= year r <= end_year)
      /\ p = pivot_of (observations df s start_year end_year))
  /\ (forall df start_year end_year,
         NoDup (map fst (get_pivotal_mean df start_year end_year)))
  /\ (forall df start_year end_year s,
         (forall r, In r df -> sdo_id r = s ->
                    ~ (start_year <= year r <= end_year)) ->
         ~ In s (map fst (get_pivotal_mean df start_year end_year)))
  /\ (forall df start_year end_year s,
         (exists r, In r df /\ sdo_id r = s /\ start_year <= year r <= end_year) ->
         observations df s start_year end_year = [] ->
         In (s, None) (get_pivotal_mean df start_year end_year))
  /\ (forall df start_year end_year s t,
         observations df s start_year end_year = [t] ->
         exists m,
           In (s, Some m) (get_pivotal_mean df start_year end_year)
           /\ (m == t)%Q).
Proof.
  repeat apply conj.
  - apply In_get_pivotal_mean_observations.
  - intros. apply agg_groupby_NoDup.
  - intros df st en s Hnone Hin.
    apply in_map_iff in Hin as [[s' p] [E Hin]]. simpl in E. subst s'.
    apply In_get_pivotal_mean in Hin as [[r [Hr [Hs Hy]]] _].
    exact (Hnone r Hr Hs Hy).
  - intros df st en s Hrow Hobs.
    apply In_get_pivotal_mean_observations. split; [assumption|].
    now rewrite Hobs.
  - intros df st en s t Hobs. exists (sum_by_number [t]). split.
    + apply In_get_pivotal_mean_observations. split.
      * apply (observation_row df s st en t). rewrite Hobs. now left.
      * now rewrite Hobs.
    + apply sum_by_number_one.
Qed.

Lemma get_pivotal_mean_per_station_witness :
  let df := [measurement "s1" 1999 (Some 10%Q) None;
             measurement "s2" 2000 None None;
             measurement "s1" 2000 (Some 20%Q) None;
             measurement "s1" 2020 (Some 40%Q) None;
             measurement "s3" 2005 (Some 7%Q) None;
             measurement "s3" 2006 None None] in
  (exists r, In r df /\ sdo_id r = "s1" /\ 1990 <= year r <= 2010)
  /\ observations df "s1" 1990 2010 = [10%Q; 20%Q]
  /\ (exists m, In ("s1", Some m) (get_pivotal_mean df 1990 2010) /\ (m == 15)%Q)
  /\ observations df "s3" 1990 2010 = [7%Q]
  /\ (exists m, In ("s3", Some m) (get_pivotal_mean df 1990 2010) /\ (m == 7)%Q).
Proof.
  intros df.
  assert (Hrow : exists r, In r df /\ sdo_id r = "s1" /\ 1990 <= year r <= 2010).
  { exists (measurement "s1" 1999 (Some 10%Q) None).
    split; [now left|]. split; [reflexivity|]. simpl. lia. }
  assert (H3 : observations df "s3" 1990 2010 = [7%Q]) by reflexivity.
  split; [exact Hrow|]. split; [reflexivity|]. split; [|split; [exact H3|]].
  - exists (sum_by_number [10%Q; 20%Q]). split.
    + apply (proj1 get_pivotal_mean_per_station df 1990 2010 "s1").
      split; [exact Hrow|reflexivity].
    + reflexivity.
  - exact (proj2 (proj2 (proj2 (proj2 get_pivotal_mean_per_station)))
             df 1990 2010 "s3" 7%Q H3).
Defined.

(** C4, as stated: the running-mean aggregation reports no count at all.
    Its table has the columns of the year and of the running mean only, so
    for the year 2001 of the domain, without data, there is no station
    count 0: the row has no station count. *)
Lemma running_mean_reports_no_count :
  let out := aggregate_running_mean one_in_2000 cols.temperature "A" "state"
               [2000; 2001] in
  In 2001 [2000; 2001]
  /\ In [(cols.year, CInt 2001); (cols.running, NA)] out
  /\ ~ (forall rec,
           In rec out -> pd_get cols.year rec = Some (CInt 2001) ->
           exists n, pd_get cols.stations rec = Some (CInt n))
  /\ ~ count_never_null out.
Proof.
  intros out.
  assert (Hin : In [(cols.year, CInt 2001); (cols.running, NA)] out)
    by (vm_compute; right; now left).
  split; [right; now left|]. split; [exact Hin|]. split.
  - intros H. destruct (H _ Hin eq_refl) as [n Hn]. discriminate Hn.
  - intros H. destruct (H _ Hin) as [n Hn]. discriminate Hn.
Qed.

(** C4: for the three aggregations that report a count (spatial, temporal,
    difference) the station count of every output row is a number, never
    null; every key of the full key domain has a row, and when the raw data
    has no row of that key its count is 0 while its mean and stddev are
    null.  The running-mean aggregation has a row for every year of the
    full year domain too, with a null running mean when the raw data has no
    row of that year; its rows carry no station count. *)
Theorem count_never_null_where_reported :
  (forall sqrt sdf y v area a full years,
      count_never_null (aggregate_spatially sqrt sdf y v a full)
      /\ count_never_null (aggregate_temporarly sqrt sdf v area a years)
      /\ count_never_null (aggregate_differences sqrt sdf area a years))
  /\ (forall sqrt sdf y v a full k,
         In k full ->
         (exists rec, In rec (aggregate_spatially sqrt sdf y v a full)
                      /\ pd_get cols.area rec = Some (CStr k))
         /\ ((forall r, In r sdf -> col_area a r <> Some k) ->
             forall rec,
               In rec (aggregate_spatially sqrt sdf y v a full) ->
               pd_get cols.area rec = Some (CStr k) -> empty_stats rec))
  /\ (forall sqrt sdf v area a years y,
         In y years ->
         (exists rec, In rec (aggregate_temporarly sqrt sdf v area a years)
                      /\ pd_get cols.year rec = Some (CInt y))
         /\ ((forall r, In r sdf -> year r <> y) ->
             forall rec,
               In rec (aggregate_temporarly sqrt sdf v area a years) ->
               pd_get cols.year rec = Some (CInt y) -> empty_stats rec))
  /\ (forall sqrt sdf area a years y,
         In y years ->
         (exists rec, In rec (aggregate_differences sqrt sdf area a years)
                      /\ pd_get cols.year rec = Some (CInt y))
         /\ ((forall r, In r sdf -> year r <> y) ->
             forall rec,
               In rec (aggregate_differences sqrt sdf area a years) ->
               pd_get cols.year rec = Some (CInt y) -> empty_stats rec))
  /\ (forall sdf v area a years y,
         In y years ->
         (exists rec, In rec (aggregate_running_mean sdf v area a years)
                      /\ pd_get cols.year rec = Some (CInt y))
         /\ ((forall r, In r sdf -> year r <> y) ->
             forall rec,
               In rec (aggregate_running_mean sdf v area a years) ->
               pd_get cols.year rec = Some (CInt y) ->
               pd_get cols.running rec = Some NA))
  /\ (forall sdf v area a years rec,
         In rec (aggregate_running_mean sdf v area a years) ->
         pd_get cols.stations rec = None).
Proof.
  repeat apply conj.
  - intros sqrt sdf y v area a full years. repeat apply conj; intros rec H.
    + apply spatial_rows in H as [k ->].
      eexists. apply stats_record_count. now left.
    + apply temporarly_rows in H as [y' [-> _]].
      eexists. apply stats_record_count. now right.
    + apply differences_rows in H as [y' [-> _]].
      eexists. apply stats_record_count. now right.
  - intros sqrt sdf y v a full k Hin. split.
    + eexists. split; [now apply (spatial_row_of sqrt sdf y v a full k)|].
      apply stats_record_key.
    + intros Habs rec Hrec Hk.
      rewrite (spatial_rows_of_key sqrt sdf y v a full k rec Hrec Hk).
      rewrite (no_area_no_values sdf v a k y Habs).
      apply stats_record_empty. now left.
  - intros sqrt sdf v area a years y Hin. split.
    + eexists. split.
      * apply (temporarly_row_of sqrt sdf v area a years y). now right.
      * apply stats_record_key.
    + intros Habs rec Hrec Hk.
      rewrite (temporarly_rows_of_key sqrt sdf v area a years y rec Hrec Hk).
      rewrite (no_year_no_values sdf v a area y Habs).
      apply stats_record_empty. now right.
  - intros sqrt sdf area a years y Hin. split.
    + eexists. split.
      * apply (differences_row_of sqrt sdf area a years y). now right.
      * apply stats_record_key.
    + intros Habs rec Hrec Hk.
      rewrite (differences_rows_of_key sqrt sdf area a years y rec Hrec Hk).
      rewrite (no_year_no_differences sdf a area y Habs).
      apply stats_record_empty. now right.
  - intros sdf v area a years y Hin. split.
    + destruct (has_row_dec sdf a area y) as [H|H].
      * exists (running_record y (mean (values_in_window sdf v a area y))).
        split; [|reflexivity]. apply running_rows. exists y. left. now split.
      * exists (running_record y None).
        split; [|reflexivity]. apply running_rows. exists y. right.
        now repeat split.
    + intros Habs rec Hrec Hk.
      apply running_rows in Hrec as [y' [[Hrow ->]|[_ [_ ->]]]].
      * injection Hk as ->. exfalso.
        exact (no_year_no_row sdf a area y Habs Hrow).
      * reflexivity.
  - intros sdf v area a years rec Hrec.
    apply running_rows in Hrec as [y' [[_ ->]|[_ [_ ->]]]]; reflexivity.
Qed.

Lemma count_never_null_where_reported_witness :
  In "B" ["B"; "A"]
  /\ (forall r, In r one_in_2000 -> col_area "state" r <> Some "B")
  /\ In [(cols.area, CStr "B"); (cols.mean, NA); (cols.stddev, NA);
         (cols.stations, CInt 0)]
       (aggregate_spatially sqrt_newton one_in_2000 2000 cols.temperature
          "state" ["B"; "A"])
  /\ empty_stats [(cols.area, CStr "B"); (cols.mean, NA); (cols.stddev, NA);
                  (cols.stations, CInt 0)].
Proof.
  assert (Hin : In "B" ["B"; "A"]) by now left.
  assert (Habs : forall r, In r one_in_2000 -> col_area "state" r <> Some "B").
  { intros r [<-|[]]. discriminate. }
  assert (Hrec : In [(cols.area, CStr "B"); (cols.mean, NA); (cols.stddev, NA);
                     (cols.stations, CInt 0)]
                   (aggregate_spatially sqrt_newton one_in_2000 2000
                      cols.temperature "state" ["B"; "A"]))
    by (vm_compute; right; now left).
  repeat (split; [assumption|]).
  exact (proj2 (proj1 (proj2 count_never_null_where_reported)
                  sqrt_newton one_in_2000 2000 cols.temperature "state"
                  ["B"; "A"] "B" Hin)
           Habs _ Hrec eq_refl).
Defined.

(** * The examples of the specification *)

(** The temporal aggregation of area A with the values 10 and 20 in the
    year 2000 over the years 2000 and 2001: mean 15, the square root of the
    sample variance 50, count 2; then the year without data. *)
Example aggregate_temporarly_example :
  forall sqrt, exists m x,
    aggregate_temporarly sqrt two_in_2000 cols.temperature "A" "state" [2000; 2001]
    = [[(cols.year, CInt 2000); (cols.mean, CFloat m);
        (cols.stddev, CFloat (sqrt x)); (cols.stations, CInt 2)];
       [(cols.year, CInt 2001); (cols.mean, NA);
        (cols.stddev, NA); (cols.stations, CInt 0)]]
    /\ (m == 15)%Q /\ (x == 50)%Q.
Proof.
  intros sqrt. eexists. eexists. split; [vm_compute; reflexivity|].
  split; reflexivity.
Qed.

(** A feature whose coordinates are the bare ring, not a list of rings, is
    read as malformed: its points are taken for polygons, and no point is
    contained. *)
Example find_area_bare_ring :
  forall pc lon lat n0 n1 n3,
    find_area pc lon lat [mkFeature (square_ring 0 10) n0 n1 n3]
    = Ok (None, None, None, cols.automated).
Proof.
  intros. apply find_area_no_match. intros f [<-|[]]. reflexivity.
Qed.

(** * Further properties of the area resolver *)

Section ResolverOutcomes.

Variable polygon_contains : json -> Q -> Q -> result bool.

Local Abbreviation check := (check_in_polygons polygon_contains).

Lemma nest_cons (sib : list json) (siblings : list (list json)) (g : json) :
  nest (sib :: siblings) g = JArr (nest siblings g :: sib).
Proof. reflexivity. Qed.

Lemma nest_shape (siblings : list (list json)) (x : json)
    (xs pts holes : list json) :
  exists p00 r2 r1,
    nest siblings (JArr (JArr (JArr (x :: xs) :: pts) :: holes))
    = JArr (JArr (p00 :: r2) :: r1)
    /\ isinstance_list p00 = true.
Proof.
  induction siblings as [|sib siblings IH].
  - now exists (JArr (x :: xs)), pts, holes.
  - destruct IH as [p00 [r2 [r1 [E _]]]]. rewrite nest_cons, E.
    now exists (JArr (p00 :: r2)), r1, sib.
Qed.

(** A polygon wrapped in further lists, run with a call stack of [limit]
    frames: one frame per wrapping list and one for the polygon itself. *)
Lemma check_in_polygons_fuel_nest (lon lat : Q) (siblings : list (list json))
    (x : json) (xs pts holes : list json) :
  isinstance_list x = false ->
  forall limit,
    ((List.length siblings < limit)%nat ->
     check_in_polygons_fuel polygon_contains limit lon lat
       (nest siblings (JArr (JArr (JArr (x :: xs) :: pts) :: holes)))
     = polygon_contains (JArr (JArr (x :: xs) :: pts)) lon lat)
    /\ ((limit <= List.length siblings)%nat ->
        check_in_polygons_fuel polygon_contains limit lon lat
          (nest siblings (JArr (JArr (JArr (x :: xs) :: pts) :: holes)))
        = Raise RecursionError).
Proof.
  intros Hx. induction siblings as [|sib siblings IH]; intros limit.
  - change (nest [] ?g) with g. destruct limit as [|n].
    + split; [intros H; inversion H|reflexivity].
    + split; [intros _|intros H; inversion H].
      cbn [check_in_polygons_fuel]. now apply check_step_ring.
  - destruct (nest_shape siblings x xs pts holes) as [p00 [r2 [r1 [E Hp]]]].
    rewrite nest_cons. destruct limit as [|n].
    + split; [intros H; inversion H|reflexivity].
    + cbn [check_in_polygons_fuel].
      rewrite (check_step_recursive_call polygon_contains _ lon lat _
                 (nest siblings (JArr (JArr (JArr (x :: xs) :: pts) :: holes)))).
      2:{ rewrite E. now apply (rc_first _ (JArr (p00 :: r2)) p00 sib). }
      destruct (IH n) as [H1 H2].
      split; intros H; [apply H1|apply H2]; cbn [List.length] in H; lia.
Qed.

(** With a call stack of [limit] frames the test has one more outcome: it
    raises [RecursionError] when the stack is used up, which takes a nesting
    at least as deep as the stack. *)
Lemma check_in_polygons_fuel_outcome (limit : nat) :
  forall (lon lat : Q) (g : json),
    check_in_polygons_fuel polygon_contains limit lon lat g = Ok false
    \/ check_in_polygons_fuel polygon_contains limit lon lat g = Raise IndexError
    \/ (check_in_polygons_fuel polygon_contains limit lon lat g = Raise RecursionError
        /\ (limit <= depth g)%nat)
    \/ exists ring x xs pts,
        heads g ring /\ ring = JArr (JArr (x :: xs) :: pts)
        /\ isinstance_list x = false
        /\ check_in_polygons_fuel polygon_contains limit lon lat g
           = polygon_contains ring lon lat.
Proof.
  induction limit as [|n IH]; intros lon lat g.
  - right. right. left. split; [reflexivity|lia].
  - cbn [check_in_polygons_fuel].
    destruct g as [| | | |l|]; try (now left).
    destruct l as [|polygon rest]; [now left|].
    destruct polygon as [| | | |l0|]; try (now left).
    destruct l0 as [|p0 r1]; [right; now left|].
    destruct p0 as [| | | |l1|]; try (now left).
    destruct l1 as [|p00 r2]; [right; now left|].
    destruct (isinstance_list p00) eqn:Hp.
    + assert (Hc : recursive_call (JArr (JArr (JArr (p00 :: r2) :: r1) :: rest))
                     (JArr (JArr (p00 :: r2) :: r1)))
        by now apply (rc_first _ (JArr (p00 :: r2)) p00 rest).
      rewrite (check_step_recursive_call polygon_contains _ lon lat _ _ Hc).
      destruct (IH lon lat (JArr (JArr (p00 :: r2) :: r1))) as [H|[H|[H|H]]].
      * now left.
      * right. now left.
      * right. right. left. destruct H as [H Hd]. split; [assumption|].
        apply recursive_call_depth in Hc. lia.
      * right. right. right. destruct H as [ring [x [xs [pts [Hh [E [Hx Hr]]]]]]].
        exists ring, x, xs, pts. repeat split; try assumption.
        apply heads_more with (inner := JArr (JArr (p00 :: r2) :: r1)); [|assumption].
        now exists rest.
    + right. right. right.
      exists (JArr (JArr (p00 :: r2) :: r1)), p00, r2, r1.
      repeat split; try assumption.
      * apply heads_one. now exists rest.
      * now apply check_step_ring.
Qed.

Lemma find_area_outcome (lon lat : Q) (geojson : list Feature) :
  (find_area polygon_contains lon lat geojson
   = Ok (None, None, None, cols.automated)
   /\ forall f, In f geojson -> check lon lat (coordinates f) = Ok false)
  \/ (exists (before : list Feature) f after,
         geojson = (before ++ f :: after)%list
         /\ (forall b, In b before -> check lon lat (coordinates b) = Ok false)
         /\ ((check lon lat (coordinates f) = Ok true
              /\ find_area polygon_contains lon lat geojson
                 = Ok (translate (NAME_0 f), NAME_1 f, NAME_3 f, cols.automated))
             \/ exists e, check lon lat (coordinates f) = Raise e
                          /\ find_area polygon_contains lon lat geojson = Raise e)).
Proof.
  induction geojson as [|f rest IH].
  - left. split; [reflexivity|intros f []].
  - rewrite find_area_cons.
    destruct (check lon lat (coordinates f)) as [[|]|e] eqn:Hf.
    + right. exists [], f, rest. split; [reflexivity|].
      split; [intros b []|]. left. now split.
    + destruct IH as [[H1 H2]|[before [f' [after [E [Hb H]]]]]].
      * left. split; [assumption|]. intros f' [<-|Hin]; [assumption|now apply H2].
      * right. exists (f :: before), f', after. split; [now rewrite E|].
        split; [intros b [<-|Hin]; [assumption|now apply Hb]|].
        exact H.
    + right. exists [], f, rest. split; [reflexivity|].
      split; [intros b []|]. right. exists e. now split.
Qed.

End ResolverOutcomes.

(** X1: on input that is no geometry the containment test answers "not
    contained": a value that is no list, an empty list, a list whose first
    element is no list, and a list whose first element is a list that
    starts with a non-list (such as a bare ring of points, or a bare
    point). *)
Theorem check_in_polygons_malformed_not_contained :
  forall pc lon lat,
    (forall g, isinstance_list g = false -> check_in_polygons pc lon lat g = Ok false)
    /\ check_in_polygons pc lon lat (JArr []) = Ok false
    /\ (forall x rest,
           isinstance_list x = false ->
           check_in_polygons pc lon lat (JArr (x :: rest)) = Ok false)
    /\ (forall x xs rest,
           isinstance_list x = false ->
           check_in_polygons pc lon lat (JArr (JArr (x :: xs) :: rest)) = Ok false).
Proof.
  intros pc lon lat. repeat apply conj.
  - intros g H. destruct g; try reflexivity. discriminate H.
  - reflexivity.
  - intros x rest H. rewrite check_in_polygons_unfold.
    unfold check_step, for_each. now rewrite H.
  - intros x xs rest H. rewrite check_in_polygons_unfold.
    unfold check_step, for_each. simpl. now rewrite H.
Qed.

Lemma check_in_polygons_malformed_not_contained_witness :
  isinstance_list (JNum 0) = false
  /\ check_in_polygons ring_contains 5 5 (square_ring 0 10) = Ok false.
Proof.
  split; [reflexivity|].
  exact (proj2 (proj2 (proj2 (check_in_polygons_malformed_not_contained
                                ring_contains 5%Q 5%Q)))
           (JNum 0) _ _ eq_refl).
Defined.

(** X2: whatever the geometry and whatever the size of the call stack, the
    containment test answers false, or raises [IndexError], or raises
    [RecursionError] because the stack is used up (the nesting is then at
    least as deep as the stack has frames), or returns (or raises) exactly
    what the geometry library says about one ring: a list, reached from the
    input by going to the first element one or more times, whose first
    element is a list that starts with a non-list.  So "contained" is never
    the test's own verdict, and of its own it raises nothing but
    [IndexError] and [RecursionError]. *)
Theorem check_in_polygons_result_origin :
  forall pc limit lon lat g,
    check_in_polygons_fuel pc limit lon lat g = Ok false
    \/ check_in_polygons_fuel pc limit lon lat g = Raise IndexError
    \/ (check_in_polygons_fuel pc limit lon lat g = Raise RecursionError
        /\ (limit <= depth g)%nat)
    \/ exists ring x xs pts,
        heads g ring /\ ring = JArr (JArr (x :: xs) :: pts)
        /\ isinstance_list x = false
        /\ check_in_polygons_fuel pc limit lon lat g = pc ring lon lat.
Proof. intros. apply check_in_polygons_fuel_outcome. Qed.

(** X3: the nesting depth matters only to the call stack.  A polygon (a
    ring of points, followed by anything) wrapped in further lists, each
    with any further elements behind it, costs one invocation per wrapping
    list and one for itself.  With a call stack of more frames than there
    are wrapping lists it is tested as the polygon itself, the answer being
    the library's containment test of its first ring; with a call stack of
    no more frames than that the test raises [RecursionError]. *)
Theorem check_in_polygons_any_nesting_depth :
  forall pc limit lon lat siblings x xs pts holes,
    isinstance_list x = false ->
    ((List.length siblings < limit)%nat ->
     check_in_polygons_fuel pc limit lon lat
       (nest siblings (JArr (JArr (JArr (x :: xs) :: pts) :: holes)))
     = pc (JArr (JArr (x :: xs) :: pts)) lon lat)
    /\ ((limit <= List.length siblings)%nat ->
        check_in_polygons_fuel pc limit lon lat
          (nest siblings (JArr (JArr (JArr (x :: xs) :: pts) :: holes)))
        = Raise RecursionError).
Proof. intros. now apply check_in_polygons_fuel_nest. Qed.

Lemma check_in_polygons_any_nesting_depth_witness :
  isinstance_list (JNum 0) = false
  /\ (List.length [[JNull]; []; [square_ring 20 30]] < 1000)%nat
  /\ check_in_polygons_fuel ring_contains 1000 5 5
       (nest [[JNull]; []; [square_ring 20 30]]
          (JArr [square_ring 0 10; JStr "hole"]))
     = ring_contains (square_ring 0 10) 5 5
  /\ (3 <= List.length [[JNull]; []; [square_ring 20 30]])%nat
  /\ check_in_polygons_fuel ring_contains 3 5 5
       (nest [[JNull]; []; [square_ring 20 30]]
          (JArr [square_ring 0 10; JStr "hole"]))
     = Raise RecursionError.
Proof.
  assert (H1 : (List.length [[JNull]; []; [square_ring 20 30]] < 1000)%nat)
    by (cbn [List.length]; lia).
  assert (H2 : (3 <= List.length [[JNull]; []; [square_ring 20 30]])%nat)
    by (cbn [List.length]; lia).
  split; [reflexivity|]. split; [exact H1|]. split; [|split; [exact H2|]].
  - exact (proj1 (check_in_polygons_any_nesting_depth ring_contains 1000 5%Q 5%Q
                    [[JNull]; []; [square_ring 20 30]] (JNum 0) _ _ [JStr "hole"]
                    eq_refl) H1).
  - exact (proj2 (check_in_polygons_any_nesting_depth ring_contains 3 5%Q 5%Q
                    [[JNull]; []; [square_ring 20 30]] (JNum 0) _ _ [JStr "hole"]
                    eq_refl) H2).
Defined.

(** X18: the recursion of the containment test is well-founded on the
    nesting: a recursive call is made on an element of the current list,
    which nests less deeply, the relation between a call and its recursive
    call is well-founded, an invocation's result is that of its recursive
    call when it makes one and does not depend on the recursion otherwise,
    and a run with a call stack deeper than the nesting ends without
    exhausting it, with the result of the unbounded function. *)
Theorem check_in_polygons_terminates :
  (forall outer inner,
      recursive_call outer inner ->
      In inner (elements outer) /\ (depth inner < depth outer)%nat)
  /\ well_founded (fun inner outer => recursive_call outer inner)
  /\ (forall pc self lon lat outer inner,
         recursive_call outer inner ->
         check_step pc self lon lat outer = self inner)
  /\ (forall pc self self' lon lat outer,
         (forall inner, ~ recursive_call outer inner) ->
         check_step pc self lon lat outer = check_step pc self' lon lat outer)
  /\ (forall pc limit lon lat g,
         (depth g < limit)%nat ->
         check_in_polygons_fuel pc limit lon lat g = check_in_polygons pc lon lat g)
  /\ (forall pc limit lon lat g,
         (forall ring x y, pc ring x y <> Raise RecursionError) ->
         (depth g < limit)%nat ->
         check_in_polygons_fuel pc limit lon lat g <> Raise RecursionError).
Proof.
  repeat apply conj.
  - intros outer inner H. split.
    + now apply recursive_call_element.
    + now apply recursive_call_depth.
  - apply recursive_call_wf.
  - intros. now apply check_step_recursive_call.
  - intros pc self self' lon lat outer H. apply check_step_ext.
    intros inner Hc. now apply H in Hc.
  - intros. now apply check_in_polygons_fuel_enough.
  - intros pc limit lon lat g Hpc Hd.
    rewrite check_in_polygons_fuel_enough by assumption.
    now apply check_in_polygons_no_recursion_error.
Qed.

Lemma check_in_polygons_terminates_witness :
  (depth (JArr [JArr [square_ring 0 10]; JArr [square_ring 20 30]]) < 5)%nat
  /\ check_in_polygons_fuel ring_contains 5 5 5
       (JArr [JArr [square_ring 0 10]; JArr [square_ring 20 30]])
     = check_in_polygons ring_contains 5 5
         (JArr [JArr [square_ring 0 10]; JArr [square_ring 20 30]]).
Proof.
  split; [vm_compute; lia|].
  apply (proj1 (proj2 (proj2 (proj2 (proj2 check_in_polygons_terminates))))).
  vm_compute. lia.
Defined.

(** X4: the outcomes of the area lookup.  Either no feature contains the
    point (every containment test answers false) and the result is the
    tuple of nulls; or there is a first feature whose test does not answer
    false, all features before it answering false: if its test answers true
    the result is that feature's tuple, and if its test raises, the lookup
    raises the same exception, whatever the features after it are. *)
Theorem find_area_outcomes :
  forall pc lon lat geojson,
    (find_area pc lon lat geojson = Ok (None, None, None, cols.automated)
     /\ forall f, In f geojson ->
                  check_in_polygons pc lon lat (coordinates f) = Ok false)
    \/ (exists (before : list Feature) f after,
           geojson = (before ++ f :: after)%list
           /\ (forall b, In b before ->
                         check_in_polygons pc lon lat (coordinates b) = Ok false)
           /\ ((check_in_polygons pc lon lat (coordinates f) = Ok true
                /\ find_area pc lon lat geojson
                   = Ok (translate (NAME_0 f), NAME_1 f, NAME_3 f, cols.automated))
               \/ exists e,
                   check_in_polygons pc lon lat (coordinates f) = Raise e
                   /\ find_area pc lon lat geojson = Raise e)).
Proof. intros. apply find_area_outcome. Qed.

(** * Further properties of the dataframe engine *)

Section JoinCounting.

Context {K : Type}.
Variable K_dec : forall a b : K, {a = b} + {a <> b}.

Local Abbreviation kb := (keyb K_dec).

Lemma length_filter_key (l : list K) (k : K) :
  List.length (filter (fun k' => kb k' k) l) = count_occ K_dec l k.
Proof.
  induction l as [|a l IH]; simpl; [reflexivity|].
  unfold keyb at 1. destruct (K_dec a k); simpl; now rewrite IH.
Qed.

Lemma length_filter_key' (l : list K) (k : K) :
  List.length (filter (kb k) l) = count_occ K_dec l k.
Proof.
  rewrite <- length_filter_key. f_equal. apply filter_ext. intros k'.
  unfold keyb. destruct (K_dec k k'), (K_dec k' k); congruence.
Qed.

Lemma count_occ_keys {P} (l : list (K * P)) (k : K) :
  count_occ K_dec (map fst l) k
  = List.length (filter (fun r => kb (fst r) k) l).
Proof.
  induction l as [|a l IH]; simpl; [reflexivity|].
  unfold keyb at 1. destruct (K_dec (fst a) k); simpl; now rewrite IH.
Qed.

Lemma join_left_rows_length {P} (right : list K) (l : K * P) :
  List.length (join_left_rows K_dec right l)
  = Nat.max 1 (count_occ K_dec right (fst l)).
Proof.
  unfold join_left_rows. rewrite <- length_filter_key'.
  destruct (filter (kb (fst l)) right) as [|p ps]; [reflexivity|].
  rewrite length_map. simpl. lia.
Qed.

Lemma join_left_rows_filter {P} (right : list K) (l : K * P) (k : K) :
  filter (fun r => kb (fst r) k) (join_left_rows K_dec right l)
  = if K_dec (fst l) k then join_left_rows K_dec right l else [].
Proof.
  destruct (K_dec (fst l) k) as [E|E].
  - apply forallb_filter_id. apply forallb_forall. intros r Hr.
    apply In_partners in Hr. subst r. now apply keyb_true.
  - apply filter_none. intros r Hr. apply In_partners in Hr. subst r.
    now apply keyb_false.
Qed.

Lemma join_left_count {P} (left : list (K * P)) (right : list K) (k : K) :
  NoDup (map fst left) ->
  List.length (filter (fun r => kb (fst r) k)
                 (flat_map (join_left_rows K_dec right) left))
  = if in_dec K_dec k (map fst left)
    then Nat.max 1 (count_occ K_dec right k) else O.
Proof.
  intros Hnd. induction left as [|l rest IH]; [reflexivity|].
  simpl in Hnd. inversion Hnd as [|? ? Hnl Hnd']; subst.
  cbn [flat_map]. rewrite filter_app, length_app, join_left_rows_filter.
  rewrite (IH Hnd').
  destruct (K_dec (fst l) k) as [E|E].
  - rewrite join_left_rows_length, E.
    destruct (in_dec K_dec k (map fst rest)) as [Hin|Hin];
      [exfalso; apply Hnl; now rewrite E|].
    destruct (in_dec K_dec k (map fst (l :: rest))) as [_|Hout]; [lia|].
    exfalso. apply Hout. left. exact E.
  - simpl List.length.
    destruct (in_dec K_dec k (map fst rest)) as [Hin|Hin];
      destruct (in_dec K_dec k (map fst (l :: rest))) as [Hin'|Hin'];
      try reflexivity.
    + exfalso. apply Hin'. now right.
    + destruct Hin' as [H|H]; [contradiction|contradiction].
Qed.

Lemma join_right_count {P} (nulls : P) (left : list (K * P)) (right : list K)
    (k : K) :
  List.length
    (filter (fun r => kb (fst r) k)
       (map (fun k' => (k', nulls))
          (filter (fun k' => negb (existsb (fun l => kb (fst l) k') left)) right)))
  = if in_dec K_dec k (map fst left) then O else count_occ K_dec right k.
Proof.
  rewrite filter_map_swap, length_map, filter_filter. simpl.
  destruct (in_dec K_dec k (map fst left)) as [Hin|Hin].
  - rewrite filter_none; [reflexivity|]. intros x _.
    destruct (kb x k) eqn:E; [|now rewrite andb_false_r].
    apply keyb_true in E. subst x. rewrite andb_true_r.
    apply not_true_iff_false. intros H. now apply not_in_left in H.
  - rewrite <- length_filter_key. f_equal. apply filter_ext. intros x.
    destruct (kb x k) eqn:E; [|now rewrite andb_false_r].
    apply keyb_true in E. subst x. rewrite andb_true_r.
    now apply not_in_left.
Qed.

(** The number of rows of a key in an outer join: as often as the right
    table lists it, and once if only the left table has it. *)
Lemma join_outer_count {P} (nulls : P) (left : list (K * P)) (right : list K)
    (k : K) :
  NoDup (map fst left) ->
  List.length (filter (fun r => kb (fst r) k) (join_outer K_dec nulls left right))
  = if in_dec K_dec k (map fst left)
    then Nat.max 1 (count_occ K_dec right k) else count_occ K_dec right k.
Proof.
  intros Hnd. unfold join_outer.
  rewrite filter_app, length_app, (join_left_count left right k Hnd),
    join_right_count.
  destruct (in_dec K_dec k (map fst left)); lia.
Qed.

Lemma join_outer_NoDup {P} (nulls : P) (left : list (K * P)) (right : list K) :
  NoDup (map fst left) -> NoDup right ->
  NoDup (map fst (join_outer K_dec nulls left right)).
Proof.
  intros Hl Hr. apply (NoDup_count_occ K_dec). intros k.
  rewrite count_occ_keys, (join_outer_count nulls left right k Hl).
  pose proof (proj1 (NoDup_count_occ K_dec right) Hr k).
  destruct (in_dec K_dec k (map fst left)); lia.
Qed.

(** Without repetition in the right table every left row stays single. *)
Lemma join_left_rows_single {P} (right : list K) (l : K * P) :
  NoDup right -> join_left_rows K_dec right l = [l].
Proof.
  intros Hr. pose proof (join_left_rows_length right l) as Hlen.
  pose proof (proj1 (NoDup_count_occ K_dec right) Hr (fst l)) as Hc.
  destruct (join_left_rows K_dec right l) as [|r [|r' rs]] eqn:E.
  - cbn [List.length] in Hlen. lia.
  - assert (Hin : In r (join_left_rows K_dec right l)) by (rewrite E; now left).
    apply In_partners in Hin. now subst.
  - cbn [List.length] in Hlen. lia.
Qed.

Lemma join_left_single {P} (left : list (K * P)) (right : list K) :
  NoDup right -> flat_map (join_left_rows K_dec right) left = left.
Proof.
  intros Hr. induction left as [|l rest IH]; [reflexivity|].
  cbn [flat_map]. rewrite (join_left_rows_single right l Hr), IH. reflexivity.
Qed.

End JoinCounting.

Lemma sorted_nodup_strict (l : list Z) :
  StronglySorted Z.le l -> NoDup l -> StronglySorted Z.lt l.
Proof.
  induction 1 as [|x l Hs IH Hall]; intros Hnd; constructor.
  - apply IH. now inversion Hnd.
  - inversion Hnd as [|? ? Hx _]; subst.
    rewrite Forall_forall in *. intros y Hy.
    specialize (Hall y Hy). assert (x <> y) by (intros ->; contradiction). lia.
Qed.

Section StationSums.

Context {K : Type}.
Variable K_dec : forall a b : K, {a = b} + {a <> b}.
Variable sqrt : Q -> Q.

Definition zsum (l : list Z) : Z := fold_right Z.add 0 l.

Lemma zsum_map_add {A} (f g : A -> Z) (l : list A) :
  zsum (map (fun x => f x + g x) l) = zsum (map f l) + zsum (map g l).
Proof. induction l as [|a l IH]; simpl; lia. Qed.

Lemma zsum_indicator (a : K) (w : Z) (ks : list K) :
  NoDup ks -> In a ks ->
  zsum (map (fun k => if keyb K_dec a k then w else 0) ks) = w.
Proof.
  intros Hnd. induction Hnd as [|k ks Hk Hnd IH]; intros Hin; [destruct Hin|].
  simpl. unfold keyb at 1. destruct (K_dec a k) as [E|E].
  - subst k. rewrite (map_ext_in _ (fun _ => 0)); [|].
    + clear. induction ks; simpl; lia.
    + intros k' Hk'.
      assert (keyb K_dec a k' = false) as ->
          by (apply keyb_false; intros ->; contradiction).
      reflexivity.
  - destruct Hin as [H|H]; [congruence|]. rewrite (IH H). lia.
Qed.

Lemma count_cons (c : Row -> option Q) (r : Row) (l : list Row) :
  count (map c (r :: l))
  = (match c r with Some _ => 1 | None => 0 end) + count (map c l).
Proof.
  unfold count. simpl. destruct (c r); simpl List.length; lia.
Qed.

(** Every value is counted in the group of its key, and in no other. *)
Lemma partition_count (key : Row -> K) (c : Row -> option Q) (ks : list K)
    (l : list Row) :
  NoDup ks -> (forall r, In r l -> In (key r) ks) ->
  zsum (map (fun k => count (map c (filter (fun r => keyb K_dec (key r) k) l))) ks)
  = count (map c l).
Proof.
  intros Hnd. induction l as [|r l IH]; intros Hin.
  - simpl. clear. induction ks; simpl; [reflexivity|]. rewrite IHks. reflexivity.
  - rewrite count_cons, <- IH by (intros r' Hr'; apply Hin; now right).
    rewrite <- (zsum_indicator (key r)
                  (match c r with Some _ => 1 | None => 0 end) ks Hnd)
      by (apply Hin; now left).
    rewrite <- zsum_map_add. f_equal. apply map_ext. intros k.
    cbn [filter]. destruct (keyb K_dec (key r) k).
    + now rewrite count_cons.
    + rewrite Z.add_0_l. reflexivity.
Qed.

Lemma stations_sum_app (l1 l2 : list (K * Stats)) :
  stations_sum (l1 ++ l2) = stations_sum l1 + stations_sum l2.
Proof.
  unfold stations_sum.
  induction l1 as [|[k [[m s] [n|]]] l1 IH]; simpl in *; rewrite ?IH; lia.
Qed.

Lemma stations_sum_fillna (l : list (K * Stats)) :
  stations_sum (fillna_stations l) = stations_sum l.
Proof.
  unfold stations_sum, fillna_stations.
  induction l as [|[k [[m s] [n|]]] l IH]; simpl in *; rewrite ?IH; lia.
Qed.

Lemma stations_sum_nulls (l : list K) :
  stations_sum (map (fun k => (k, null_stats)) l) = 0.
Proof.
  unfold stations_sum. induction l as [|k l IH]; simpl in *; [reflexivity|assumption].
Qed.

Lemma stations_sum_agg (c : Row -> option Q) (groups : list (K * list Row)) :
  stations_sum (agg (agg_stats sqrt c) groups)
  = zsum (map (fun g => count (map c (snd g))) groups).
Proof.
  unfold stations_sum, agg, zsum.
  induction groups as [|g groups IH]; simpl in *; [reflexivity|]. now rewrite IH.
Qed.

Lemma stations_sum_groupby (key : Row -> K) (c : Row -> option Q) (df : list Row) :
  stations_sum (agg (agg_stats sqrt c) (groupby K_dec key df)) = count (map c df).
Proof.
  rewrite stations_sum_agg. unfold groupby. rewrite map_map. simpl.
  apply partition_count; [apply NoDup_nodup|].
  intros r Hr. apply nodup_In. now apply in_map.
Qed.

(** No value is lost and none is counted twice: when the right table lists
    no key twice, the station counts of the filled join add up to the number
    of non-null values. *)
Lemma chain_total (key : Row -> K) (c : Row -> option Q) (df : list Row)
    (right : list K) :
  NoDup right ->
  stations_sum
    (fillna_stations
       (join_outer K_dec null_stats
          (agg (agg_stats sqrt c) (groupby K_dec key df)) right))
  = count (map c df).
Proof.
  intros Hr. rewrite stations_sum_fillna. unfold join_outer.
  rewrite stations_sum_app, (join_left_single K_dec _ right Hr),
    stations_sum_nulls, stations_sum_groupby. lia.
Qed.

Lemma total_stations_toPandas (keycol : string) (key_cell : K -> Cell)
    (l : list (K * Stats)) :
  keycol = cols.area \/ keycol = cols.year ->
  total_stations (toPandas_stats keycol key_cell l) = stations_sum l.
Proof.
  intros Hk. induction l as [|[k [[m s] n]] l IH]; [reflexivity|].
  unfold toPandas_stats in *. cbn [map total_stations stations_sum fold_right fst snd].
  fold (total_stations (map (fun r => stats_record keycol (key_cell (fst r)) (snd r)) l)).
  fold (stations_sum l). rewrite IH.
  destruct (stats_record_fields keycol (key_cell k) m s n Hk) as [_ [_ ->]].
  destruct n; reflexivity.
Qed.

End StationSums.

Lemma stations_sum_perm {P : Type} (l l' : list (P * Stats)) :
  Permutation l l' -> stations_sum l = stations_sum l'.
Proof.
  unfold stations_sum.
  induction 1 as [|x l l' _ IH|x y l|l l' l'' _ IH1 _ IH2]; simpl in *.
  - reflexivity.
  - now rewrite IH.
  - destruct x as [kx [[mx sx] [nx|]]], y as [ky [[my sy] [ny|]]]; simpl; lia.
  - congruence.
Qed.

Section YearlyCounting.

Variable sqrt : Q -> Q.
Variable c : Row -> option Q.
Variable df : list Row.
Variable years : list Z.

Local Abbreviation joined :=
  (fillna_stations
     (join_outer Z.eq_dec null_stats
        (agg (agg_stats sqrt c) (groupby Z.eq_dec year df)) years)).

Local Abbreviation table := (toPandas_stats cols.year CInt (sort joined)).

Lemma yearly_count (y : Z) :
  List.length (filter (has_key cols.year (CInt y)) table)
  = if in_dec Z.eq_dec y (map year df)
    then Nat.max 1 (count_occ Z.eq_dec years y) else count_occ Z.eq_dec years y.
Proof.
  unfold toPandas_stats. rewrite filter_map_swap, length_map.
  erewrite filter_ext.
  2:{ intros r. rewrite has_key_stats_record. apply cell_eqb_year. }
  rewrite (Permutation_length (filter_perm _ _ _ (sort_perm joined))).
  unfold fillna_stations. rewrite filter_map_swap, length_map. simpl.
  rewrite join_outer_count by apply agg_groupby_NoDup.
  destruct (in_dec Z.eq_dec y (map fst (agg (agg_stats sqrt c) (groupby Z.eq_dec year df))))
    as [H|H]; rewrite agg_groupby_keys in H;
    destruct (in_dec Z.eq_dec y (map year df)); try reflexivity; contradiction.
Qed.

Lemma yearly_strict : NoDup years -> strictly_sorted_by_year table.
Proof.
  intros Hnd. exists (map fst (sort joined)).
  split; [apply toPandas_stats_years|].
  apply sorted_nodup_strict; [apply sort_keys_sorted|].
  apply (Permutation_NoDup (l := map fst joined)).
  - apply Permutation_map. symmetry. apply sort_perm.
  - unfold fillna_stations. rewrite map_map. simpl.
    change (map (fun x : Z * Stats => fst x)) with (map (@fst Z Stats)).
    apply join_outer_NoDup; [apply agg_groupby_NoDup|assumption].
Qed.

Lemma yearly_total : NoDup years -> total_stations table = count (map c df).
Proof.
  intros Hnd. rewrite total_stations_toPandas by now right.
  rewrite (stations_sum_perm _ _ (sort_perm joined)).
  now apply chain_total.
Qed.

End YearlyCounting.

Lemma count_all_present (c : Row -> option Q) (l : list Row) :
  (forall r, In r l -> c r <> None) -> count (map c l) = Z.of_nat (List.length l).
Proof.
  intros H. induction l as [|r l IH]; [reflexivity|].
  rewrite count_cons, IH by (intros r' Hr'; apply H; now right).
  specialize (H r (or_introl eq_refl)). destruct (c r); [|congruence].
  simpl List.length. lia.
Qed.

(** A difference is there where both the temperature and the pivot are. *)
Lemma count_col_sub (a b : Row -> option Q) (l : list Row) :
  count (map (col_sub a b) l)
  = Z.of_nat (List.length (filter (fun r => isNotNull a r && isNotNull b r) l)).
Proof.
  induction l as [|r l IH]; [reflexivity|].
  rewrite count_cons, IH. cbn [filter]. unfold col_sub, isNotNull at 3 4.
  destruct (a r), (b r); simpl andb; cbn [List.length]; lia.
Qed.

Lemma In_valued_area (sdf : list Row) (y : Z) (v a k : string) :
  In (Some k)
     (map (col_area a)
        (where_ (isNotNull (col_value v))
           (where_ (fun r => year r =? y)
              (where_ (isNotNull (col_area a)) sdf))))
  <-> has_valued_row sdf v a k y.
Proof.
  unfold where_, has_valued_row. rewrite in_map_iff. split.
  - intros [r [E H]]. apply filter_In in H as [H Hv].
    apply filter_In in H as [H Hy]. apply filter_In in H as [H _].
    exists r. split; [assumption|]. unfold area_is. rewrite E.
    rewrite String.eqb_refl. apply Z.eqb_eq in Hy.
    repeat split; try assumption.
    unfold isNotNull in Hv. destruct (col_value v r); [discriminate|discriminate].
  - intros [r [Hr [Ha [Hy Hv]]]]. unfold area_is in Ha.
    destruct (col_area a r) as [s|] eqn:E; [|discriminate].
    apply String.eqb_eq in Ha. subst s. exists r. split; [assumption|].
    apply filter_In. split.
    + apply filter_In. split; [|now apply Z.eqb_eq].
      apply filter_In. split; [assumption|]. unfold isNotNull. now rewrite E.
    + unfold isNotNull. destruct (col_value v r); [reflexivity|congruence].
Qed.

Section SpatialMore.

Variable sqrt : Q -> Q.

Lemma spatial_row_of_data (sdf : list Row) (y : Z) (v a : string)
    (full : list string) (k : string) :
  has_valued_row sdf v a k y \/ In k full ->
  In (stats_record cols.area (CStr k)
        (stats_of sqrt (values_of_area_in_year sdf v a k y)))
     (aggregate_spatially sqrt sdf y v a full).
Proof.
  intros H.
  assert (Hk : In (Some k) (map fst
       (fillna_stations
          (join_outer option_string_dec null_stats
             (agg (agg_stats sqrt (col_value v))
                (groupby option_string_dec (col_area a)
                   (where_ (isNotNull (col_value v))
                      (where_ (fun r => year r =? y)
                         (where_ (isNotNull (col_area a)) sdf)))))
             (map Some full))))).
  { apply chain_keys. destruct H as [H|H].
    - left. now apply In_valued_area.
    - right. now apply in_map. }
  apply in_map_iff in Hk as [[key st] [E Hin]]. simpl in E. subst key.
  apply In_toPandas_stats. exists (Some k), st. split; [assumption|].
  apply chain_stats in Hin. rewrite Hin. now rewrite spatial_values.
Qed.

Lemma spatial_rows_origin (sdf : list Row) (y : Z) (v a : string)
    (full : list string) (rec : PRow) :
  In rec (aggregate_spatially sqrt sdf y v a full) ->
  exists k,
    (has_valued_row sdf v a k y \/ In k full)
    /\ rec = stats_record cols.area (CStr k)
               (stats_of sqrt (values_of_area_in_year sdf v a k y)).
Proof.
  intros H. pose proof H as H'. apply spatial_rows in H' as [k E].
  exists k. split; [|exact E]. subst rec.
  apply In_toPandas_stats in H as [key [st [H E]]].
  assert (Hkey : str_cell key = CStr k).
  { pose proof (stats_record_key cols.area (str_cell key) st) as H1.
    rewrite <- E, stats_record_key in H1. congruence. }
  destruct key as [k'|]; [|discriminate]. injection Hkey as ->.
  assert (Hin : In (Some k) (map fst
       (fillna_stations
          (join_outer option_string_dec null_stats
             (agg (agg_stats sqrt (col_value v))
                (groupby option_string_dec (col_area a)
                   (where_ (isNotNull (col_value v))
                      (where_ (fun r => year r =? y)
                         (where_ (isNotNull (col_area a)) sdf)))))
             (map Some full))))).
  { apply in_map_iff. now exists (Some k, st). }
  apply chain_keys in Hin as [Hin|Hin].
  - left. now apply In_valued_area.
  - right. apply in_map_iff in Hin as [k' [E' Hin]]. now inversion E'; subst.
Qed.

Lemma spatial_total (sdf : list Row) (y : Z) (v a : string) (full : list string) :
  NoDup full ->
  total_stations (aggregate_spatially sqrt sdf y v a full)
  = Z.of_nat
      (List.length
         (filter (fun r => isNotNull (col_area a) r && (year r =? y)
                           && isNotNull (col_value v) r) sdf)).
Proof.
  intros Hnd. unfold aggregate_spatially.
  rewrite total_stations_toPandas by now left.
  rewrite chain_total.
  2:{ apply Finite.Injective_map_NoDup; [|assumption].
      intros x x' E. now inversion E. }
  unfold where_. rewrite !filter_filter.
  rewrite (filter_ext _ (fun r => isNotNull (col_area a) r && (year r =? y)
                                  && isNotNull (col_value v) r))
    by (intros r; apply andb_assoc).
  apply count_all_present. intros r Hr. apply filter_In in Hr as [_ Hr].
  apply andb_true_iff in Hr as [_ Hr]. unfold isNotNull in Hr.
  destruct (col_value v r); [discriminate|discriminate].
Qed.

End SpatialMore.

Lemma running_strict (sdf : list Row) (v area a : string) (years : list Z) :
  NoDup years ->
  strictly_sorted_by_year (aggregate_running_mean sdf v area a years).
Proof.
  intros Hnd. unfold aggregate_running_mean, toPandas_running. cbv zeta.
  eexists (map fst (sort (join_outer Z.eq_dec None _ years))).
  split; [rewrite !map_map; reflexivity|].
  apply sorted_nodup_strict; [apply sort_keys_sorted|].
  eapply Permutation_NoDup.
  - apply Permutation_map. symmetry. apply sort_perm.
  - apply join_outer_NoDup; [apply running_table_NoDup|assumption].
Qed.

Lemma count_occ_domain (years : list Z) (y : Z) :
  In y years -> Nat.max 1 (count_occ Z.eq_dec years y) = count_occ Z.eq_dec years y.
Proof. intros H. apply (count_occ_In Z.eq_dec) in H. lia. Qed.

(** X5: the temporal aggregation has exactly these rows: for every year in
    which the area has a row (even one without a value) and every year of
    the full year domain, the year with the mean, the stddev and the count
    of the non-null values of the area's rows of that year; they come in
    ascending order of the year. *)
Theorem aggregate_temporarly_by_year :
  forall sqrt sdf v area a years,
    let out := aggregate_temporarly sqrt sdf v area a years in
    sorted_by_year out
    /\ (forall rec,
           In rec out <->
           exists y,
             (has_row sdf a area y \/ In y years)
             /\ rec = [(cols.year, CInt y);
                       (cols.mean,
                        float_cell (mean (values_of_area_in_year sdf v a area y)));
                       (cols.stddev,
                        float_cell (stddev sqrt (values_of_area_in_year sdf v a area y)));
                       (cols.stations,
                        CInt (count (values_of_area_in_year sdf v a area y)))]).
Proof.
  intros sqrt sdf v area a years out. split.
  - apply yearly_sorted.
  - intros rec. split.
    + intros H. apply temporarly_rows in H as [y [-> H]]. now exists y.
    + intros [y [H ->]]. now apply (temporarly_row_of sqrt sdf v area a years y).
Qed.

(** X6: the spatial aggregation has exactly these rows: one shape per area
    name, for the names of the full area list and for every area that has a
    row of the year with a value in the column, listed or not; the row holds
    the name (never a null), and the mean, the stddev and the count of the
    non-null values of the area's rows of the year.  An unlisted area whose
    rows of the year are all without value has no row. *)
Theorem aggregate_spatially_by_area :
  forall sqrt sdf y v a full rec,
    In rec (aggregate_spatially sqrt sdf y v a full) <->
    exists k,
      (has_valued_row sdf v a k y \/ In k full)
      /\ rec = [(cols.area, CStr k);
                (cols.mean, float_cell (mean (values_of_area_in_year sdf v a k y)));
                (cols.stddev,
                 float_cell (stddev sqrt (values_of_area_in_year sdf v a k y)));
                (cols.stations, CInt (count (values_of_area_in_year sdf v a k y)))].
Proof.
  intros sqrt sdf y v a full rec. split.
  - intros H. apply spatial_rows_origin in H as [k [H ->]]. now exists k.
  - intros [k [H ->]]. now apply (spatial_row_of_data sqrt sdf y v a full k).
Qed.

(** X7: how many rows a year has in the temporal and in the difference
    table.  A year of the full year domain has as many rows as the domain
    lists it (two rows for a year listed twice); a year outside the domain
    has one row if the area has a row of that year, and none otherwise.
    Rows of the same year are equal, so the order the engine leaves open
    among them does not show. *)
Theorem yearly_rows_follow_domain_multiplicity :
  forall sqrt sdf v area a years,
    let rows_of out y := List.length (filter (has_key cols.year (CInt y)) out) in
    let temporal := aggregate_temporarly sqrt sdf v area a years in
    let differences := aggregate_differences sqrt sdf area a years in
    (forall y, In y years ->
               rows_of temporal y = count_occ Z.eq_dec years y
               /\ rows_of differences y = count_occ Z.eq_dec years y)
    /\ (forall y, ~ In y years -> has_row sdf a area y ->
                  rows_of temporal y = 1%nat /\ rows_of differences y = 1%nat)
    /\ (forall y, ~ In y years -> ~ has_row sdf a area y ->
                  rows_of temporal y = 0%nat /\ rows_of differences y = 0%nat)
    /\ (forall rec1 rec2,
           In rec1 temporal -> In rec2 temporal ->
           pd_get cols.year rec1 = pd_get cols.year rec2 -> rec1 = rec2)
    /\ (forall rec1 rec2,
           In rec1 differences -> In rec2 differences ->
           pd_get cols.year rec1 = pd_get cols.year rec2 -> rec1 = rec2).
Proof.
  intros sqrt sdf v area a years rows_of temporal differences.
  assert (Ht : forall y,
             rows_of temporal y
             = if in_dec Z.eq_dec y (map year (where_ (area_is a area) sdf))
               then Nat.max 1 (count_occ Z.eq_dec years y)
               else count_occ Z.eq_dec years y)
    by (intros y; apply yearly_count).
  assert (Hd : forall y,
             rows_of differences y
             = if in_dec Z.eq_dec y (map year (where_ (area_is a area) sdf))
               then Nat.max 1 (count_occ Z.eq_dec years y)
               else count_occ Z.eq_dec years y).
  { intros y. unfold rows_of, differences, aggregate_differences.
    rewrite yearly_count, withColumn_year. reflexivity. }
  repeat apply conj.
  - intros y Hy. rewrite Ht, Hd.
    destruct (in_dec Z.eq_dec y (map year (where_ (area_is a area) sdf)));
      rewrite ?count_occ_domain by assumption; now split.
  - intros y Hy Hrow. rewrite Ht, Hd.
    apply (count_occ_not_In Z.eq_dec) in Hy. rewrite Hy.
    apply In_year_where in Hrow.
    destruct (in_dec Z.eq_dec y (map year (where_ (area_is a area) sdf)));
      [now split|contradiction].
  - intros y Hy Hrow. rewrite Ht, Hd.
    apply (count_occ_not_In Z.eq_dec) in Hy. rewrite Hy.
    rewrite <- In_year_where in Hrow.
    destruct (in_dec Z.eq_dec y (map year (where_ (area_is a area) sdf)));
      [contradiction|now split].
  - intros rec1 rec2 H1 H2 E.
    apply temporarly_rows in H1 as [y1 [-> _]].
    apply temporarly_rows in H2 as [y2 [-> _]].
    rewrite !stats_record_key in E. injection E as ->. reflexivity.
  - intros rec1 rec2 H1 H2 E.
    apply differences_rows in H1 as [y1 [-> _]].
    apply differences_rows in H2 as [y2 [-> _]].
    rewrite !stats_record_key in E. injection E as ->. reflexivity.
Qed.

Lemma yearly_rows_follow_domain_multiplicity_witness :
  In 2001 [2001; 2000; 2001]
  /\ List.length
       (filter (has_key cols.year (CInt 2001))
          (aggregate_temporarly sqrt_newton two_in_2000 cols.temperature "A" "state"
             [2001; 2000; 2001]))
     = 2%nat.
Proof.
  assert (Hin : In 2001 [2001; 2000; 2001]) by now left.
  split; [exact Hin|].
  exact (proj1 (proj1 (yearly_rows_follow_domain_multiplicity sqrt_newton
                         two_in_2000 cols.temperature "A" "state"
                         [2001; 2000; 2001]) 2001 Hin)).
Defined.

(** X8: when the full year domain lists no year twice, the temporal, the
    difference and the running-mean table have one row per year, in strictly
    ascending order of the year. *)
Theorem yearly_tables_strictly_sorted :
  forall sqrt sdf v area a years,
    NoDup years ->
    strictly_sorted_by_year (aggregate_temporarly sqrt sdf v area a years)
    /\ strictly_sorted_by_year (aggregate_differences sqrt sdf area a years)
    /\ strictly_sorted_by_year (aggregate_running_mean sdf v area a years).
Proof.
  intros sqrt sdf v area a years Hnd. repeat apply conj.
  - now apply yearly_strict.
  - now apply yearly_strict.
  - now apply running_strict.
Qed.

Lemma yearly_tables_strictly_sorted_witness :
  NoDup [2001; 1999]
  /\ strictly_sorted_by_year
       (aggregate_running_mean two_in_2000 cols.temperature "A" "state" [2001; 1999]).
Proof.
  assert (Hnd : NoDup [2001; 1999]).
  { constructor; [intros [H|[]]; discriminate H|].
    constructor; [intros []|constructor]. }
  split; [exact Hnd|].
  exact (proj2 (proj2 (yearly_tables_strictly_sorted sqrt_newton two_in_2000
                         cols.temperature "A" "state" [2001; 1999] Hnd))).
Defined.

(** X9: no value is lost and none is counted twice.  When the key domain
    lists no key twice, the station counts of the temporal table add up to
    the number of non-null values of the column on the rows of the area,
    those of the difference table to the number of rows of the area that
    have both a temperature and a pivot temperature, and those of the
    spatial table to the number of rows of the year with an area name and
    a value. *)
Theorem station_counts_add_up :
  (forall sqrt sdf v area a years,
      NoDup years ->
      total_stations (aggregate_temporarly sqrt sdf v area a years)
      = count (map (col_value v) (filter (area_is a area) sdf)))
  /\ (forall sqrt sdf area a years,
         NoDup years ->
         total_stations (aggregate_differences sqrt sdf area a years)
         = Z.of_nat
             (List.length
                (filter (fun r => area_is a area r
                                  && (isNotNull (col_value cols.temperature) r
                                      && isNotNull (col_value cols.pivot_temp) r))
                   sdf)))
  /\ (forall sqrt sdf y v a full,
         NoDup full ->
         total_stations (aggregate_spatially sqrt sdf y v a full)
         = Z.of_nat
             (List.length
                (filter (fun r => isNotNull (col_area a) r && (year r =? y)
                                  && isNotNull (col_value v) r) sdf))).
Proof.
  repeat apply conj.
  - intros sqrt sdf v area a years Hnd. now apply yearly_total.
  - intros sqrt sdf area a years Hnd. unfold aggregate_differences.
    rewrite yearly_total by assumption.
    rewrite withColumn_value, count_col_sub. unfold where_.
    now rewrite filter_filter.
  - intros. now apply spatial_total.
Qed.

Lemma station_counts_add_up_witness :
  NoDup [2001; 2000]
  /\ total_stations
       (aggregate_temporarly sqrt_newton two_in_2000 cols.temperature "A" "state"
          [2001; 2000])
     = count (map (col_value cols.temperature) (filter (area_is "state" "A") two_in_2000)).
Proof.
  assert (Hnd : NoDup [2001; 2000]).
  { constructor; [intros [H|[]]; discriminate H|].
    constructor; [intros []|constructor]. }
  split; [exact Hnd|].
  exact (proj1 station_counts_add_up sqrt_newton two_in_2000 cols.temperature
           "A" "state" [2001; 2000] Hnd).
Defined.

(** X10: a row without a temperature or without a pivot temperature (its
    station is not in the pivot table) has a null difference and is left
    out: the station count of a year in the difference table is the number
    of rows of the area and the year that have both. *)
Theorem aggregate_differences_counts_complete_rows :
  forall sqrt sdf area a years rec y,
    In rec (aggregate_differences sqrt sdf area a years) ->
    pd_get cols.year rec = Some (CInt y) ->
    pd_get cols.stations rec
    = Some (CInt (Z.of_nat
                    (List.length
                       (filter (fun r => (area_is a area r && (year r =? y))
                                         && (isNotNull (col_value cols.temperature) r
                                             && isNotNull (col_value cols.pivot_temp) r))
                          sdf)))).
Proof.
  intros sqrt sdf area a years rec y Hin Hy.
  rewrite (differences_rows_of_key sqrt sdf area a years y rec Hin Hy).
  rewrite stats_record_count by now right.
  unfold differences_in_year. rewrite count_col_sub, filter_filter. reflexivity.
Qed.

Lemma aggregate_differences_counts_complete_rows_witness :
  let sdf := measurement "s3" 2000 (Some 5%Q) None :: one_in_2000 in
  let rec := [(cols.year, CInt 2000); (cols.mean, CFloat 2);
              (cols.stddev, NA); (cols.stations, CInt 1)] in
  In rec (aggregate_differences (fun x => x) sdf "A" "state" [2000])
  /\ pd_get cols.year rec = Some (CInt 2000)
  /\ pd_get cols.stations rec = Some (CInt 1).
Proof.
  intros sdf rec.
  assert (Hin : In rec (aggregate_differences (fun x => x) sdf "A" "state" [2000]))
    by (vm_compute; now left).
  assert (Hy : pd_get cols.year rec = Some (CInt 2000)) by reflexivity.
  repeat (split; [assumption|]).
  exact (aggregate_differences_counts_complete_rows (fun x => x) sdf "A" "state"
           [2000] rec 2000 Hin Hy).
Defined.

(** * Numbers: deviations *)

Section Numbers.

Local Open Scope Q_scope.

Lemma In_present {A} (vs : list (option A)) (x : A) :
  In x (present vs) <-> In (Some x) vs.
Proof.
  induction vs as [|[a|] vs IH]; simpl.
  - reflexivity.
  - rewrite IH. split; (intros [H|H]; [left; congruence|now right]).
  - rewrite IH. split; [now right|intros [H|H]; [discriminate|assumption]].
Qed.

Lemma Qsquare_nonneg (q : Q) : 0 <= q * q.
Proof.
  unfold Qle, Qmult. simpl. rewrite Z.mul_1_r. apply Z.square_nonneg.
Qed.

Lemma Qsum_squares_nonneg (m : Q) (xs : list Q) :
  0 <= Qsum (map (fun x => (x - m) * (x - m)) xs).
Proof.
  induction xs as [|x xs IH]; simpl; [apply Qle_refl|].
  rewrite <- (Qplus_0_l 0). apply Qplus_le_compat; [apply Qsquare_nonneg|exact IH].
Qed.

Variable sqrt : Q -> Q.

(** The engine takes the root of a number that is not negative, and only
    when there are two values or more. *)
Lemma stddev_some (vs : list (option Q)) (s : Q) :
  stddev sqrt vs = Some s ->
  (2 <= count vs)%Z /\ exists x, s = sqrt x /\ 0 <= x.
Proof.
  unfold stddev, count. intros H.
  destruct (Nat.ltb_spec (List.length (present vs)) 2) as [Hlt|Hge];
    [discriminate|].
  injection H as <-. split; [lia|]. eexists. split; [reflexivity|].
  apply Qle_shift_div_l.
  - unfold Qlt. simpl. lia.
  - rewrite Qmult_0_l. apply Qsum_squares_nonneg.
Qed.

Lemma stats_record_stddev_shape (keycol : string) (kc : Cell)
    (vs : list (option Q)) :
  keycol = cols.area \/ keycol = cols.year ->
  exists n,
    pd_get cols.stations (stats_record keycol kc (stats_of sqrt vs)) = Some (CInt n)
    /\ ((n < 2 /\ pd_get cols.stddev (stats_record keycol kc (stats_of sqrt vs))
                  = Some NA)%Z
        \/ (2 <= n)%Z
           /\ exists x,
               pd_get cols.stddev (stats_record keycol kc (stats_of sqrt vs))
               = Some (CFloat (sqrt x)) /\ 0 <= x).
Proof.
  intros Hk. exists (count vs).
  destruct (stats_record_fields keycol kc (mean vs) (stddev sqrt vs)
              (Some (count vs)) Hk) as [_ [Hs Hn]].
  unfold stats_of. rewrite Hs, Hn. split; [reflexivity|].
  destruct (stddev sqrt vs) as [s|] eqn:E.
  - right. apply stddev_some in E as [Hc [x [-> Hx]]].
    split; [assumption|]. now exists x.
  - left. split; [|reflexivity].
    unfold stddev in E. unfold count.
    destruct (Nat.ltb_spec (List.length (present vs)) 2); [lia|discriminate].
Qed.

End Numbers.

(** X12: in the spatial, the temporal and the difference table the stddev
    goes with the station count on every row: it is null when the count is
    below 2, and when the count is 2 or more it is the engine's square root
    of a number that is not negative (the sample variance), so the root is
    never asked of a negative number. *)
Theorem stddev_present_from_two_values :
  forall sqrt sdf y v area a full years,
    stddev_is_root_of_variance sqrt (aggregate_spatially sqrt sdf y v a full)
    /\ stddev_is_root_of_variance sqrt (aggregate_temporarly sqrt sdf v area a years)
    /\ stddev_is_root_of_variance sqrt (aggregate_differences sqrt sdf area a years).
Proof.
  intros sqrt sdf y v area a full years. repeat apply conj; intros rec Hin.
  - apply spatial_rows in Hin as [k ->].
    apply stats_record_stddev_shape. now left.
  - apply temporarly_rows in Hin as [y' [-> _]].
    apply stats_record_stddev_shape. now right.
  - apply differences_rows in Hin as [y' [-> _]].
    apply stats_record_stddev_shape. now right.
Qed.

Lemma present_nil_iff {A} (vs : list (option A)) :
  present vs = [] <-> forall x, ~ In (Some x) vs.
Proof.
  split.
  - intros H x Hx. apply In_present in Hx. rewrite H in Hx. destruct Hx.
  - intros H. destruct (present vs) as [|x xs] eqn:E; [reflexivity|].
    exfalso. apply (H x). apply In_present. rewrite E. now left.
Qed.


(** X14: the running mean is a function of the year.  On the table with the
    window column, before [drop_duplicates], any two rows of the same year
    carry the same running mean, so it does not matter which of them is
    kept; and in the output any two rows of the same year are equal. *)
Theorem running_mean_is_a_function_of_the_year :
  forall sdf v area a,
    let restricted := where_ (area_is a area) sdf in
    let windowed :=
      withColumn cols.running
        (fun r => mean (map (col_value v)
                          (rangeBetween year (-6) currentRow restricted r)))
        restricted in
    (forall r1 r2,
        In r1 windowed -> In r2 windowed -> year r1 = year r2 ->
        col_value cols.running r1 = col_value cols.running r2)
    /\ (forall years rec1 rec2,
           In rec1 (aggregate_running_mean sdf v area a years) ->
           In rec2 (aggregate_running_mean sdf v area a years) ->
           pd_get cols.year rec1 = pd_get cols.year rec2 -> rec1 = rec2).
Proof.
  intros sdf v area a restricted windowed. split.
  - intros r1 r2 H1 H2 E.
    apply with_running_In in H1 as [_ ->]. apply with_running_In in H2 as [_ ->].
    now rewrite E.
  - intros years rec1 rec2 H1 H2 E.
    apply running_rows in H1 as [y1 [[R1 ->]|[_ [N1 ->]]]];
      apply running_rows in H2 as [y2 [[R2 ->]|[_ [N2 ->]]]];
      injection E as ->; try reflexivity; contradiction.
Qed.



(** X16: the edges of the pivot computation.  An interval whose end lies
    before its start gives the empty table; and a station of the result has
    a null pivot exactly when none of its rows in the interval has a
    temperature. *)
Theorem get_pivotal_mean_edges :
  (forall df start_year end_year,
      end_year < start_year -> get_pivotal_mean df start_year end_year = [])
  /\ (forall df start_year end_year s p,
         In (s, p) (get_pivotal_mean df start_year end_year) ->
         (p = None <->
          forall r, In r df -> sdo_id r = s ->
                    start_year <= year r <= end_year ->
                    col_value cols.temperature r = None)).
Proof.
  split.
  - intros df st en H. unfold get_pivotal_mean, where_.
    rewrite filter_filter, filter_none; [reflexivity|].
    intros r _. apply not_true_iff_false. intros Hr.
    apply andb_true_iff in Hr as [H1 H2]. apply Z.leb_le in H1, H2. lia.
  - intros df st en s p Hin. apply In_get_pivotal_mean in Hin as [_ ->].
    rewrite mean_none, present_nil_iff. unfold station_temperatures. split.
    + intros H r Hr Hs Hy.
      destruct (col_value cols.temperature r) as [x|] eqn:E; [|reflexivity].
      exfalso. apply (H x). apply in_map_iff. exists r. split; [assumption|].
      apply filter_In. split; [assumption|].
      apply andb_true_iff. split; [now apply String.eqb_eq|].
      apply andb_true_iff. split; apply Z.leb_le; lia.
    + intros H x Hx. apply in_map_iff in Hx as [r [E Hr]].
      apply filter_In in Hr as [Hr Hc].
      apply andb_true_iff in Hc as [Hs Hy]. apply andb_true_iff in Hy as [H1 H2].
      apply String.eqb_eq in Hs. apply Z.leb_le in H1, H2.
      rewrite (H r Hr Hs (conj H1 H2)) in E. discriminate.
Qed.

Lemma get_pivotal_mean_edges_witness :
  2000 < 2010 /\ get_pivotal_mean two_in_2000 2010 2000 = [].
Proof.
  assert (H : 2000 < 2010) by lia.
  split; [exact H|].
  exact (proj1 get_pivotal_mean_edges two_in_2000 2010 2000 H).
Defined.
